(** * cloudify.workflows.local: the node-instance store and the local
      workflow environment

    A shallow embedding of [cloudify/workflows/local.py]: the [Storage]
    base class with its two backends, [InMemoryStorage] and [FileStorage],
    and the [Environment] that validates operation mappings, merges
    workflow parameters and resolves deployment outputs.

    Python dictionaries are finite maps ([gmap]), sets are [gset], raised
    exceptions are values of [exception], and code that reads or writes
    [self] runs in a small state-and-exception monad [M]. *)

From Stdlib Require Import Ascii String.
From stdpp Require Import gmap strings list fin_maps.

Set Default Proof Using "Type".
Set Warnings "-register-all".
Open Scope string_scope.

(** ** Python values *)

(** The data carried by plans, parameters and runtime properties: what
    [json] can represent.  Dictionaries nested inside a value are kept as
    association lists. *)
Inductive value :=
  | VNone
  | VBool (b : bool)
  | VInt (n : Z)
  | VStr (s : string)
  | VList (l : list value)
  | VDict (d : list (string * value)).

(** ** Exceptions *)

(** The exceptions the module raises or lets through.  A constructor
    carries the message, or the arguments its message is formatted from. *)
Inductive exception :=
  | RuntimeError (msg : string)
  | KeyError (key : string)
  | IOError (path : string)
  | AttributeError (msg : string)
  | ImportError (msg : string)
  | ValueError (msg : string)
  | TypeError (msg : string)
  | StorageConflictError (version : Z) (node_instance_id : string) (current : Z).

(** ** State and exceptions *)

Inductive outcome (S A : Type) :=
  | Raise (e : exception) (s : S)
  | Return (a : A) (s : S).
Arguments Raise {S A} e s.
Arguments Return {S A} a s.

Definition M (S A : Type) : Type := S → outcome S A.

Definition ret {S A} (a : A) : M S A := λ s, Return a s.
Definition raise {S A} (e : exception) : M S A := λ s, Raise e s.
Definition bind {S A B} (c : M S A) (k : A → M S B) : M S B :=
  λ s, match c s with
       | Raise e s' => Raise e s'
       | Return a s' => k a s'
       end.
Definition gets {S A} (f : S → A) : M S A := λ s, Return (f s) s.
Definition modify {S} (f : S → S) : M S unit := λ s, Return tt (f s).

Declare Scope py_scope.
Delimit Scope py_scope with py.
Notation "x <- c ;; k" := (bind c (λ x, k))
  (at level 100, c at next level, right associativity) : py_scope.
Notation "c ;;; k" := (bind c (λ _, k))
  (at level 100, right associativity) : py_scope.
Open Scope py_scope.

(** [for x in xs: body(x)], collecting the results (a list comprehension
    when the results are used). *)
Fixpoint for_each {S A B} (body : A → M S B) (xs : list A) : M S (list B) :=
  match xs with
  | [] => ret []
  | x :: xs' => y <- body x ;; ys <- for_each body xs' ;; ret (y :: ys)
  end.

(** The state an outcome leaves behind. *)
Definition final {S A} (o : outcome S A) : S :=
  match o with Raise _ s => s | Return _ s => s end.

(** ** Node instances *)

(** A [NodeInstance] is a dictionary; these are the keys the module reads
    or writes.  [ni_node_id] is the ['node_id'] key, [ni_name] the ['name']
    key the plan gives (the owning node's name). *)
Record NodeInstance := {
  ni_id : string;
  ni_name : string;
  ni_node_id : string;
  ni_state : option string;
  ni_runtime_properties : option (gmap string value);
  ni_version : Z;
  ni_relationships : option (list value);
}.

Definition set_version (n : Z) (i : NodeInstance) : NodeInstance :=
  {| ni_id := ni_id i; ni_name := ni_name i; ni_node_id := ni_node_id i;
     ni_state := ni_state i;
     ni_runtime_properties := ni_runtime_properties i;
     ni_version := n; ni_relationships := ni_relationships i |}.

Definition set_runtime_properties (p : gmap string value) (i : NodeInstance)
  : NodeInstance :=
  {| ni_id := ni_id i; ni_name := ni_name i; ni_node_id := ni_node_id i;
     ni_state := ni_state i;
     ni_runtime_properties := Some p;
     ni_version := ni_version i; ni_relationships := ni_relationships i |}.

Definition set_state (st : string) (i : NodeInstance) : NodeInstance :=
  {| ni_id := ni_id i; ni_name := ni_name i; ni_node_id := ni_node_id i;
     ni_state := Some st;
     ni_runtime_properties := ni_runtime_properties i;
     ni_version := ni_version i; ni_relationships := ni_relationships i |}.

Definition set_node_id (n : string) (i : NodeInstance) : NodeInstance :=
  {| ni_id := ni_id i; ni_name := ni_name i; ni_node_id := n;
     ni_state := ni_state i;
     ni_runtime_properties := ni_runtime_properties i;
     ni_version := ni_version i; ni_relationships := ni_relationships i |}.

Definition set_relationships (r : list value) (i : NodeInstance)
  : NodeInstance :=
  {| ni_id := ni_id i; ni_name := ni_name i; ni_node_id := ni_node_id i;
     ni_state := ni_state i;
     ni_runtime_properties := ni_runtime_properties i;
     ni_version := ni_version i; ni_relationships := Some r |}.

(** ** class Storage *)

(** The lock table [Storage.__init__] builds: one reentrant lock per
    instance id.  Only its keys matter to a single thread. *)
Class Locks (S : Type) := { _locks : S → gset string }.

(** [self._locks[node_instance_id]]: a dictionary lookup.  Taking and
    releasing the lock it returns changes nothing in a single thread. *)
Definition _lock {S} `{!Locks S} (node_instance_id : string) : M S unit :=
  λ s, if decide (node_instance_id ∈ _locks s)
       then Return tt s
       else Raise (KeyError node_instance_id) s.

(** What a backend supplies: the abstract methods [_load_instance],
    [_store_instance] and [_instance_ids], and [assign], the effect on the
    backend of an item assignment to the object [_load_instance] returned
    for an id: for a backend that hands out the stored dictionary itself
    the assignment changes the store, for one that hands out a fresh object
    it does not. *)
Class Storage (S : Type) `{!Locks S} := {
  _load_instance : string → M S (option NodeInstance);
  assign : string → NodeInstance → M S unit;
  _store_instance : NodeInstance → M S unit;
  _instance_ids : M S (list string);
}.

Section Storage.
Context {S : Type} `{!Locks S, !Storage S}.

Definition _get_node_instance (node_instance_id : string)
  : M S NodeInstance :=
  instance <- _load_instance node_instance_id ;;
  match instance with
  | None => raise (RuntimeError
                     ("Instance " +:+ node_instance_id +:+ " does not exist"))
  | Some instance => ret instance
  end.

Definition update_node_instance (node_instance_id : string) (version : Z)
    (runtime_properties : option (gmap string value))
    (state : option string) : M S unit :=
  _lock node_instance_id ;;;
  instance <- _get_node_instance node_instance_id ;;
  instance <-
    (if bool_decide (state = None) &&
        negb (bool_decide (version = ni_version instance))
     then raise (StorageConflictError version node_instance_id
                   (ni_version instance))
     else
       let instance := set_version (ni_version instance + 1) instance in
       assign node_instance_id instance ;;; ret instance) ;;
  instance <-
    match runtime_properties with
    | Some p =>
        let instance := set_runtime_properties p instance in
        assign node_instance_id instance ;;; ret instance
    | None => ret instance
    end ;;
  instance <-
    match state with
    | Some st =>
        let instance := set_state st instance in
        assign node_instance_id instance ;;; ret instance
    | None => ret instance
    end ;;
  _store_instance instance.
End Storage.

(** ** Nodes *)

(** An operation descriptor; ['operation'] is the dotted path of its
    implementation. *)
Record Operation := { op_operation : string }.

Record Relationship := {
  rel_source_operations : option (gmap string Operation);
  rel_target_operations : option (gmap string Operation);
}.

Record Node := {
  n_id : string;
  n_operations : option (gmap string Operation);
  n_relationships : option (list Relationship);
}.

(** [dict(pairs)]: a later pair with the same key replaces an earlier one. *)
Definition dict {A} (pairs : list (string * A)) : gmap string A :=
  list_to_map (reverse pairs).

(** [d.keys()] and [d.values()], in the dictionary's iteration order.
    Python fixes no order for a dictionary, a set or the listing of a
    directory, and the orders of two of them need not agree; the model
    enumerates each in the order of its map, and a property that compares
    two listings, or names the elements of one, is stated up to their
    order. *)
Definition keys {A} (d : gmap string A) : list string := (map_to_list d).*1.
Definition values {A} (d : gmap string A) : list A := (map_to_list d).*2.

(** ** Strings *)

(** [s.split(sep)] for a one-character separator: never empty. *)
Fixpoint split (sep : Ascii.ascii) (s : string) : list string :=
  match s with
  | EmptyString => [EmptyString]
  | String c s' =>
      if decide (c = sep) then EmptyString :: split sep s'
      else match split sep s' with
           | [] => [String c EmptyString]
           | h :: t => String c h :: t
           end
  end.

(** [sep.join(l)]. *)
Definition join (sep : string) (l : list string) : string :=
  String.concat sep l.

(** [l[:-1]] and [l[-1]]; [l[-1]] of an empty list does not arise, [split]
    is never empty. *)
Definition but_last {A} (l : list A) : list A := removelast l.
Definition last_item (l : list string) : string := List.last l EmptyString.

Definition dquote : string := String (Ascii.ascii_of_nat 34) EmptyString.
Definition squote : string := String (Ascii.ascii_of_nat 39) EmptyString.

(** [repr] of a list of plain strings, as [format] prints a key list. *)
Definition repr_list (l : list string) : string :=
  "[" +:+ join ", " ((λ s, squote +:+ s +:+ squote) <$> l) +:+ "]".

(** [os.path.join] of two POSIX paths: an absolute second path replaces
    the first, otherwise the two are joined by one slash. *)
Definition ends_with_slash (s : string) : bool :=
  bool_decide (last_item (split "/"%char s) = EmptyString ∧ s ≠ EmptyString).

Definition os_path_join (a b : string) : string :=
  match b with
  | String "/" _ => b
  | _ => if bool_decide (a = EmptyString) || ends_with_slash a
         then a +:+ b
         else a +:+ "/" +:+ b
  end.

(** ** class InMemoryStorage(Storage) *)

Module InMemoryStorage.

Record t := {
  name : string;
  resources_root : string;
  _nodes : gmap string Node;
  _node_instances : gmap string NodeInstance;
  locks : gset string;
}.

Definition with_instances (m : gmap string NodeInstance) (s : t) : t :=
  {| name := name s; resources_root := resources_root s;
     _nodes := _nodes s; _node_instances := m; locks := locks s |}.

(** [Storage.__init__] as the subclass runs it: [_instance_ids] is the
    key list of [_node_instances]. *)
Definition __init__ (name resources_root : string) (nodes : list Node)
    (node_instances : list NodeInstance) : t :=
  let _nodes := dict ((λ node, (n_id node, node)) <$> nodes) in
  let _node_instances :=
    dict ((λ instance, (ni_id instance, instance)) <$> node_instances) in
  let _node_instances := set_version 0 <$> _node_instances in
  {| name := name; resources_root := resources_root;
     _nodes := _nodes; _node_instances := _node_instances;
     locks := list_to_set (keys _node_instances) |}.

#[global] Instance lock_table : Locks t := {| _locks := locks |}.

(** [_load_instance] returns the stored dictionary itself, so [assign]
    writes through to [_node_instances] and [_store_instance] is [pass]. *)
#[global] Instance hooks : Storage t := {|
  _load_instance := λ node_instance_id,
    gets (λ s, _node_instances s !! node_instance_id);
  assign := λ node_instance_id instance,
    modify (λ s, with_instances
                   (<[node_instance_id := instance]> (_node_instances s)) s);
  _store_instance := λ _, ret tt;
  _instance_ids := gets (λ s, keys (_node_instances s));
|}.

(** [copy.deepcopy] of a value is the value. *)
Definition get_node_instance (node_instance_id : string)
  : M t NodeInstance :=
  _get_node_instance node_instance_id.

Definition get_node_instances : M t (list NodeInstance) :=
  gets (λ s, values (_node_instances s)).

End InMemoryStorage.

(** ** class FileStorage(Storage) *)

(** What the file system holds at [_storage_dir]: nothing, the directory
    without [node-instances], or [node-instances] with one file per
    instance.  A file's content is the JSON document [json.dumps] wrote,
    kept as the instance [json.loads] reads back from it. *)
Inductive directory :=
  | Missing
  | NoInstances
  | Instances (files : gmap string NodeInstance).

Definition isdir_storage (d : directory) : bool :=
  match d with Missing => false | _ => true end.
Definition isdir_instances (d : directory) : bool :=
  match d with Instances _ => true | _ => false end.

Module FileStorage.

Record t := {
  name : string;
  resources_root : string;
  _nodes : gmap string Node;
  _node_instances : option (gmap string NodeInstance);
  locks : gset string;
  _storage_dir : string;
  _instances_dir : string;
  disk : directory;
}.

Definition with_disk (d : directory) (s : t) : t :=
  {| name := name s; resources_root := resources_root s;
     _nodes := _nodes s; _node_instances := _node_instances s;
     locks := locks s; _storage_dir := _storage_dir s;
     _instances_dir := _instances_dir s; disk := d |}.

Definition path_join (dir file : string) : string := os_path_join dir file.

Definition _instance_path (s : t) (node_instance_id : string) : string :=
  path_join (_instances_dir s) node_instance_id.

(** [open(path, 'w')] followed by [f.write(json.dumps(node_instance))]. *)
Definition write_file (node_instance : NodeInstance) : M t unit :=
  λ s, match disk s with
       | Instances files =>
           Return tt (with_disk
                        (Instances (<[ni_id node_instance := node_instance]>
                                      files)) s)
       | _ => Raise (IOError (_instance_path s (ni_id node_instance))) s
       end.

(** [open(path)] followed by [NodeInstance(json.loads(f.read()))]. *)
Definition read_file (node_instance_id : string) : M t NodeInstance :=
  λ s, match disk s with
       | Instances files =>
           match files !! node_instance_id with
           | Some instance => Return instance s
           | None => Raise (IOError (_instance_path s node_instance_id)) s
           end
       | _ => Raise (IOError (_instance_path s node_instance_id)) s
       end.

(** [_instance_ids]: the directory listing ([os.listdir], in an order of
    the file system's own), or during construction, before the directory
    exists, the keys of [_node_instances]; once [_node_instances] is
    [None] the latter is an [AttributeError]. *)
Definition instance_ids : M t (list string) :=
  λ s, match disk s with
       | Instances files => Return (keys files) s
       | _ =>
           match _node_instances s with
           | Some m => Return (keys m) s
           | None =>
               Raise (AttributeError
                        "'NoneType' object has no attribute 'keys'") s
           end
       end.

#[global] Instance lock_table : Locks t := {| _locks := locks |}.

(** The object [_load_instance] returns is built from the file, so an
    assignment to it leaves the store as it is until [_store_instance]
    writes the file. *)
#[global] Instance hooks : Storage t := {|
  _load_instance := λ node_instance_id,
    _lock node_instance_id ;;;
    instance <- read_file node_instance_id ;;
    ret (Some instance);
  assign := λ _ _, ret tt;
  _store_instance := λ node_instance,
    _lock (ni_id node_instance) ;;;
    write_file node_instance;
  _instance_ids := instance_ids;
|}.

Definition get_node_instance (node_instance_id : string)
  : M t NodeInstance :=
  _get_node_instance node_instance_id.

Definition get_node_instances : M t (list NodeInstance) :=
  ids <- _instance_ids ;;
  for_each _get_node_instance ids.

(** [__init__] on a file system holding [d] at [_storage_dir]: the
    returned store carries the directory as the constructor leaves it.
    The initial instances are written with [lock=False], into the
    directory [os.mkdir] has just made. *)
Definition __init__ (name resources_root : string) (nodes : list Node)
    (node_instances : list NodeInstance) (storage_dir : string)
    (clear : bool) (d : directory) : t :=
  let _storage_dir := path_join storage_dir name in
  let _instances_dir := path_join _storage_dir "node-instances" in
  let d := if isdir_storage d && clear then Missing else d in
  let _nodes := dict ((λ node, (n_id node, node)) <$> nodes) in
  let _node_instances :=
    dict ((λ instance, (ni_id instance, instance)) <$> node_instances) in
  let _node_instances := set_version 0 <$> _node_instances in
  let locks :=
    list_to_set (match d with
                 | Instances files => keys files
                 | _ => keys _node_instances
                 end) in
  let d := if negb (isdir_storage d) then NoInstances else d in
  let d :=
    if negb (isdir_instances d)
    then Instances
           (foldl (λ files instance, <[ni_id instance := instance]> files)
                  ∅ (values _node_instances))
    else d in
  {| name := name; resources_root := resources_root; _nodes := _nodes;
     _node_instances := None; locks := locks;
     _storage_dir := _storage_dir; _instances_dir := _instances_dir;
     disk := d |}.

End FileStorage.

(** The public read methods every backend overrides. *)
Class Store (S : Type) := {
  get_node_instance : string → M S NodeInstance;
  get_node_instances : M S (list NodeInstance);
}.

#[export] Instance InMemoryStorage_store : Store InMemoryStorage.t := {|
  get_node_instance := InMemoryStorage.get_node_instance;
  get_node_instances := InMemoryStorage.get_node_instances;
|}.

#[export] Instance FileStorage_store : Store FileStorage.t := {|
  get_node_instance := FileStorage.get_node_instance;
  get_node_instances := FileStorage.get_node_instances;
|}.

(** ** Results of code that holds no state *)

Definition result (A : Type) : Type := exception + A.

(** [for x in xs: body(x)], stopping at the first exception. *)
Fixpoint for_all {A} (body : A → result unit) (xs : list A) : result unit :=
  match xs with
  | [] => inr tt
  | x :: xs' =>
      match body x with
      | inl e => inl e
      | inr _ => for_all body xs'
      end
  end.

(** ** Plans *)

(** A declared workflow parameter; [p_default] is [None] when the
    declaration has no ['default'] key. *)
Record WorkflowParameter := { p_default : option value }.

Record Workflow := {
  wf_operation : string;
  wf_parameters : option (gmap string WorkflowParameter);
}.

Record Plan := {
  plan_nodes : list Node;
  plan_node_instances : list NodeInstance;
  plan_workflows : gmap string Workflow;
  plan_outputs : gmap string value;
}.

(** What [dsl_functions.parse] makes of a value: a [GetAttribute] with its
    [node_name] and [attribute_name], or anything else. *)
Inductive parsed :=
  | GetAttribute (node_name attribute_name : string)
  | NotGetAttribute.

(** ** Workflow parameters *)

(** The body of the loop over [workflow_parameters.iteritems()], on the
    pair of [missing_mandatory_parameters] and [merged_parameters]. *)
Definition merge_step (execution_parameters : gmap string value)
    (name : string) (param : WorkflowParameter)
    (acc : gset string * gmap string value) : gset string * gmap string value :=
  match p_default param with
  | None =>
      match execution_parameters !! name with
      | None => ({[name]} ∪ acc.1, acc.2)
      | Some v => (acc.1, <[name := v]> acc.2)
      end
  | Some d =>
      (acc.1, <[name := default d (execution_parameters !! name)]> acc.2)
  end.

Definition missing_message (workflow_name : string) (names : list string)
  : string :=
  "Workflow " +:+ dquote +:+ workflow_name +:+ dquote +:+
  " must be provided with the following parameters to execute: " +:+
  join "," names.

Definition undeclared_message (workflow_name : string) (names : list string)
  : string :=
  "Workflow " +:+ dquote +:+ workflow_name +:+ dquote +:+
  " does not have the following parameters declared: " +:+
  join "," names +:+
  ". Remove these parameters or use the flag for allowing custom parameters".

(** [merged_parameters.update(custom_parameters)] is the union that
    prefers [custom_parameters]. *)
Definition _merge_and_validate_execution_parameters (workflow : Workflow)
    (workflow_name : string)
    (execution_parameters : option (gmap string value))
    (allow_custom_parameters : bool) : result (gmap string value) :=
  let workflow_parameters := default ∅ (wf_parameters workflow) in
  let execution_parameters := default ∅ execution_parameters in
  let loop :=
    map_fold (merge_step execution_parameters) (∅, ∅) workflow_parameters in
  let missing_mandatory_parameters := loop.1 in
  let merged_parameters := loop.2 in
  if bool_decide (missing_mandatory_parameters ≠ ∅) then
    inl (ValueError (missing_message workflow_name
                       (elements missing_mandatory_parameters)))
  else
    let custom_parameters :=
      filter (λ kv, workflow_parameters !! kv.1 = None)
             execution_parameters in
    if negb allow_custom_parameters && bool_decide (custom_parameters ≠ ∅)
    then inl (ValueError (undeclared_message workflow_name
                            (keys custom_parameters)))
    else inr (custom_parameters ∪ merged_parameters).

(** ** Dynamic dispatch on the storage class *)

Inductive storage :=
  | MemoryStore (s : InMemoryStorage.t)
  | FileStore (s : FileStorage.t).

Definition dispatch {A} (m : M InMemoryStorage.t A) (f : M FileStorage.t A)
  : M storage A :=
  λ s, match s with
       | MemoryStore s =>
           match m s with
           | Raise e s' => Raise e (MemoryStore s')
           | Return a s' => Return a (MemoryStore s')
           end
       | FileStore s =>
           match f s with
           | Raise e s' => Raise e (FileStore s')
           | Return a s' => Return a (FileStore s')
           end
       end.

#[export] Instance storage_locks : Locks storage := {|
  _locks := λ s, match s with
                 | MemoryStore s => _locks s
                 | FileStore s => _locks s
                 end;
|}.

#[export] Instance storage_storage : Storage storage := {|
  _load_instance := λ node_instance_id,
    dispatch (_load_instance node_instance_id)
             (_load_instance node_instance_id);
  assign := λ node_instance_id instance,
    dispatch (assign node_instance_id instance)
             (assign node_instance_id instance);
  _store_instance := λ instance,
    dispatch (_store_instance instance) (_store_instance instance);
  _instance_ids := dispatch _instance_ids _instance_ids;
|}.

#[export] Instance storage_store : Store storage := {|
  get_node_instance := λ node_instance_id,
    dispatch (get_node_instance node_instance_id)
             (get_node_instance node_instance_id);
  get_node_instances := dispatch get_node_instances get_node_instances;
|}.

(** The [storage_cls] argument: one of the two backends, the abstract
    [Storage] itself, or a class that does not derive from it. *)
Inductive storage_class :=
  | InMemoryStorageClass
  | FileStorageClass
  | StorageClass
  | OtherClass (__name__ : string).

Record Environment := {
  env_name : string;
  env_plan : Plan;
  env_storage : storage;
}.

(** The [__cloudify_context] keyword argument of a workflow call. *)
Record CloudifyContext := {
  ctx_local : bool;
  ctx_deployment_id : string;
  ctx_blueprint_id : string;
  ctx_execution_id : string;
  ctx_workflow_id : string;
  ctx_storage : storage;
  ctx_task_retries : Z;
  ctx_task_retry_interval : Z;
  ctx_local_task_thread_pool_size : Z;
}.

(** ** Modules *)

(** A module as [_get_module_method] uses it: its [__name__] and the
    attributes [getattr] finds, by name. *)
Record module (callable : Type) := {
  __name__ : string;
  attributes : gmap string callable;
}.
Arguments __name__ {callable} _.
Arguments attributes {callable} _.

Module importlib.
(** [importlib.import_module(name)] of the standard library, called
    without a package, over the modules that can be found, by name, each
    with its attributes.  A name that starts with a dot is a relative
    import and is refused with a [TypeError]; the empty name is refused by
    [__import__] with a [ValueError]; a name that is not found raises
    [ImportError].  A module found is imported under the name it was asked
    by. *)
Definition import_module {callable}
    (modules : gmap string (gmap string callable)) (name : string)
  : result (module callable) :=
  match name with
  | EmptyString => inl (ValueError "Empty module name")
  | String c _ =>
      if Ascii.eqb c "."%char
      then inl (TypeError "relative imports require the 'package' argument")
      else
        match modules !! name with
        | Some attributes =>
            inr {| __name__ := name; attributes := attributes |}
        | None => inl (ImportError ("No module named " +:+ name))
        end
  end.
End importlib.

(** ** class Environment *)

Section Environment.
Context {callable : Type}.
(** [importlib.import_module]: the module a name is imported as, or the
    exception the import raises. *)
Variable import_module : string → result (module callable).

Definition _get_module_method (module_method_path tpe node_name : string)
  : result callable :=
  let split := split "."%char module_method_path in
  let module_name := join "." (but_last split) in
  let method_name := last_item split in
  match import_module module_name with
  | inl (ImportError _) =>
      inl (ImportError
             ("mapping error: No module named " +:+ module_name +:+
              " [node=" +:+ node_name +:+ ", type=" +:+ tpe +:+ "]"))
  | inl e => inl e
  | inr module =>
      match attributes module !! method_name with
      | Some method => inr method
      | None =>
          inl (AttributeError
                 ("mapping error: " +:+ __name__ module +:+
                  " has no attribute '" +:+ method_name +:+ "' [node=" +:+
                  node_name +:+ ", type=" +:+ tpe +:+ "]"))
      end
  end.

(** The inner [scan] of [_prepare_nodes_and_instances];
    [parent.get(name, {})] is passed as [operations]. *)
Definition scan (operations : option (gmap string Operation))
    (name : string) (node : Node) : result unit :=
  for_all (λ operation,
             match _get_module_method (op_operation operation) name
                     (n_id node) with
             | inl e => inl e
             | inr _ => inr tt
             end)
          (values (default ∅ operations)).

Definition prepare_node (node : Node) : result Node :=
  let node :=
    match n_relationships node with
    | None => {| n_id := n_id node; n_operations := n_operations node;
                 n_relationships := Some [] |}
    | Some _ => node
    end in
  match scan (n_operations node) "operations" node with
  | inl e => inl e
  | inr _ =>
      match for_all (λ relationship,
               match scan (rel_source_operations relationship)
                       "source_operations" node with
               | inl e => inl e
               | inr _ => scan (rel_target_operations relationship)
                            "target_operations" node
               end) (default [] (n_relationships node)) with
      | inl e => inl e
      | inr _ => inr node
      end
  end.

Definition prepare_node_instance (node_instance : NodeInstance)
  : NodeInstance :=
  let node_instance := set_node_id (ni_name node_instance) node_instance in
  match ni_relationships node_instance with
  | None => set_relationships [] node_instance
  | Some _ => node_instance
  end.

(** [for node in nodes: ...], each node updated in place. *)
Fixpoint prepare_nodes (nodes : list Node) : result (list Node) :=
  match nodes with
  | [] => inr []
  | node :: nodes' =>
      match prepare_node node with
      | inl e => inl e
      | inr node =>
          match prepare_nodes nodes' with
          | inl e => inl e
          | inr nodes' => inr (node :: nodes')
          end
      end
  end.

Definition _prepare_nodes_and_instances (nodes : list Node)
    (node_instances : list NodeInstance)
  : result (list Node * list NodeInstance) :=
  match prepare_nodes nodes with
  | inl e => inl e
  | inr nodes => inr (nodes, prepare_node_instance <$> node_instances)
  end.

(** [__init__] from the plan [dsl_tasks.prepare_deployment_plan] built;
    [blueprint_dir] is the directory of [blueprint_path], and
    [storage_dir], [clear] and the directory [d] found on disk matter to
    [FileStorage] only. *)
Definition __init__ (dsl_parser_installed : bool) (plan : Plan)
    (blueprint_dir : string) (name : string)
    (storage_cls : option storage_class)
    (storage_dir : string) (clear : bool) (d : directory)
  : result Environment :=
  if negb dsl_parser_installed then
    inl (ImportError
           ("cloudify-dsl-parser must be installed to execute local " +:+
            "workflows. (e.g. " +:+ dquote +:+
            "pip install cloudify-dsl-parser" +:+ dquote +:+ ")"))
  else
    match _prepare_nodes_and_instances (plan_nodes plan)
            (plan_node_instances plan) with
    | inl e => inl e
    | inr (nodes, node_instances) =>
        let storage_cls := default InMemoryStorageClass storage_cls in
        let must_derive cls_name :=
          ValueError ("class " +:+ cls_name +:+
                      " must strictly derive from Storage. " +:+
                      "[see InMemoryStorage and FileStorage]") in
        match storage_cls with
        | StorageClass => inl (must_derive "Storage")
        | OtherClass cls_name => inl (must_derive cls_name)
        | InMemoryStorageClass =>
            inr {| env_name := name; env_plan := plan;
                   env_storage :=
                     MemoryStore (InMemoryStorage.__init__ name
                                    blueprint_dir nodes node_instances) |}
        | FileStorageClass =>
            inr {| env_name := name; env_plan := plan;
                   env_storage :=
                     FileStore (FileStorage.__init__ name blueprint_dir
                                  nodes node_instances storage_dir clear
                                  d) |}
        end
    end.

(** What [execute] ends with: the call
    [workflow_method(__cloudify_context=ctx, **merged_parameters)]. *)
Record Invocation := {
  inv_method : callable;
  inv_context : CloudifyContext;
  inv_parameters : gmap string value;
}.

(** [execute] up to the call of the workflow method; [execution_id] is
    the fresh [uuid.uuid4()]. *)
Definition execute (self : Environment) (workflow : string)
    (parameters : option (gmap string value))
    (allow_custom_parameters : bool)
    (task_retries task_retry_interval task_thread_pool_size : Z)
    (execution_id : string) : result Invocation :=
  let workflows := plan_workflows (env_plan self) in
  let workflow_name := workflow in
  match workflows !! workflow_name with
  | None =>
      inl (ValueError
             ("'" +:+ workflow_name +:+ "' workflow does not exist. " +:+
              "existing workflows are: " +:+ repr_list (keys workflows)))
  | Some workflow =>
      match _get_module_method (wf_operation workflow) "workflow" "" with
      | inl e => inl e
      | inr workflow_method =>
          let ctx :=
            {| ctx_local := true;
               ctx_deployment_id := env_name self;
               ctx_blueprint_id := env_name self;
               ctx_execution_id := execution_id;
               ctx_workflow_id := workflow_name;
               ctx_storage := env_storage self;
               ctx_task_retries := task_retries;
               ctx_task_retry_interval := task_retry_interval;
               ctx_local_task_thread_pool_size := task_thread_pool_size |} in
          match _merge_and_validate_execution_parameters workflow
                  workflow_name parameters allow_custom_parameters with
          | inl e => inl e
          | inr merged_parameters =>
              inr {| inv_method := workflow_method;
                     inv_context := ctx;
                     inv_parameters := merged_parameters |}
          end
      end
  end.
End Environment.

(** ** Environment.outputs *)

Section outputs.
(** [dsl_functions.parse], from the DSL parser. *)
Variable parse : value → parsed.
Context {S : Type} `{!Store S}.

(** The state of the scan: [context.get('instances')] and the [outputs]
    dictionary being rewritten. *)
Definition scan_state : Type := option (list NodeInstance) * gmap string value.

(** [instance.runtime_properties or {}] followed by [.get(name)]. *)
Definition runtime_property (attribute_name : string)
    (instance : NodeInstance) : value :=
  default VNone
    (default ∅ (ni_runtime_properties instance) !! attribute_name).

Definition handler (k : string) (v : value) (st : scan_state)
  : M S scan_state :=
  match parse v with
  | GetAttribute node_name attribute_name =>
      instances <-
        match st.1 with
        | None => get_node_instances
        | Some instances => ret instances
        end ;;
      let attributes :=
        runtime_property attribute_name <$>
          filter (λ instance, ni_node_id instance = node_name) instances in
      ret (Some instances, <[k := VList attributes]> st.2)
  | NotGetAttribute => ret st
  end.

(** Modelled from the spec: [dsl_utils.scan_properties], of the DSL
    parser, is not part of this module; the spec has the outputs as a
    mapping from an output name to a literal or a function expression,
    every value of which is scanned.  The handler is called once for each
    entry. *)
Fixpoint scan_entries (entries : list (string * value)) (st : scan_state)
  : M S scan_state :=
  match entries with
  | [] => ret st
  | (k, v) :: entries' =>
      st <- handler k v st ;; scan_entries entries' st
  end.

Definition scan_properties (properties : gmap string value)
  : M S (gmap string value) :=
  st <- scan_entries (map_to_list properties) (None, properties) ;;
  ret st.2.

(** [copy.deepcopy(self.plan['outputs'])] is the dictionary itself. *)
Definition outputs_of (plan : Plan) : M S (gmap string value) :=
  scan_properties (plan_outputs plan).
End outputs.

Definition outputs (parse : value → parsed) (self : Environment)
  : result (gmap string value) :=
  match outputs_of parse (env_plan self) (env_storage self) with
  | Raise e _ => inl e
  | Return outputs _ => inr outputs
  end.

(** ** Sequences of store calls *)

(** A caller's use of a store: the three instance operations, each either
    returning or raising. *)
Inductive call :=
  | GetNodeInstance (node_instance_id : string)
  | GetNodeInstances
  | UpdateNodeInstance (node_instance_id : string) (version : Z)
      (runtime_properties : option (gmap string value))
      (state : option string).

Inductive answer :=
  | AnInstance (instance : NodeInstance)
  | SomeInstances (instances : list NodeInstance)
  | Updated.

Section calls.
Context {S : Type} `{!Locks S, !Storage S, !Store S}.

Definition run_call (c : call) : M S answer :=
  match c with
  | GetNodeInstance node_instance_id =>
      instance <- get_node_instance node_instance_id ;;
      ret (AnInstance instance)
  | GetNodeInstances =>
      instances <- get_node_instances ;; ret (SomeInstances instances)
  | UpdateNodeInstance node_instance_id version runtime_properties state =>
      update_node_instance node_instance_id version runtime_properties
        state ;;;
      ret Updated
  end.

(** The calls in order, the caller catching what each one raises. *)
Fixpoint run_calls (cs : list call) (s : S) : list (result answer) * S :=
  match cs with
  | [] => ([], s)
  | c :: cs' =>
      match run_call c s with
      | Raise e s' =>
          let '(rs, s'') := run_calls cs' s' in (inl e :: rs, s'')
      | Return a s' =>
          let '(rs, s'') := run_calls cs' s' in (inr a :: rs, s'')
      end
  end.
End calls.

(** How many of the results of [cs] are successful updates of [id]. *)
Fixpoint successful_updates (id : string) (cs : list call)
    (rs : list (result answer)) : Z :=
  match cs, rs with
  | UpdateNodeInstance id' _ _ _ :: cs', inr _ :: rs' =>
      (if bool_decide (id' = id) then 1 else 0) + successful_updates id cs' rs'
  | _ :: cs', _ :: rs' => successful_updates id cs' rs'
  | _, _ => 0
  end.

(** ** The error taxonomy *)

(** The kinds of failure a store call has: an unknown instance id surfaces
    as the [RuntimeError] of [_get_node_instance], as the [KeyError] of the
    lock table, or as the [IOError] of a missing instance file. *)
Inductive store_error :=
  | NotFound
  | Conflict
  | OtherError.

Definition store_error_of (e : exception) : store_error :=
  match e with
  | RuntimeError _ | KeyError _ | IOError _ => NotFound
  | StorageConflictError _ _ _ => Conflict
  | _ => OtherError
  end.

(** ** Stored instances *)

(** The instances a store holds, by id. *)
Definition mem_contents (s : InMemoryStorage.t) : gmap string NodeInstance :=
  InMemoryStorage._node_instances s.

Definition file_contents (s : FileStorage.t) : gmap string NodeInstance :=
  match FileStorage.disk s with
  | Instances files => files
  | _ => ∅
  end.

Definition contents (s : storage) : gmap string NodeInstance :=
  match s with
  | MemoryStore s => mem_contents s
  | FileStore s => file_contents s
  end.

(** Every instance is stored under its own id. *)
Definition keyed_by_id (m : gmap string NodeInstance) : Prop :=
  map_Forall (λ k instance, ni_id instance = k) m.

(** The state a constructor leaves and every call keeps: the lock table
    has the stored ids, and for the file backend the instances directory
    exists and every file is named by the id it holds. *)
Definition mem_consistent (s : InMemoryStorage.t) : Prop :=
  InMemoryStorage.locks s = dom (InMemoryStorage._node_instances s).

Definition file_consistent (s : FileStorage.t) : Prop :=
  isdir_instances (FileStorage.disk s) = true ∧
  FileStorage.locks s = dom (file_contents s) ∧
  keyed_by_id (file_contents s).

Definition consistent (s : storage) : Prop :=
  match s with
  | MemoryStore s => mem_consistent s
  | FileStore s => file_consistent s
  end.

(** What an accepted update makes of the stored instance. *)
Definition updated (runtime_properties : option (gmap string value))
    (state : option string) (instance : NodeInstance) : NodeInstance :=
  let instance := set_version (ni_version instance + 1) instance in
  let instance :=
    match runtime_properties with
    | Some p => set_runtime_properties p instance
    | None => instance
    end in
  match state with
  | Some st => set_state st instance
  | None => instance
  end.

(** The store with its instances replaced. *)
Definition with_contents (m : gmap string NodeInstance) (s : storage)
  : storage :=
  match s with
  | MemoryStore s => MemoryStore (InMemoryStorage.with_instances m s)
  | FileStore s => FileStore (FileStorage.with_disk (Instances m) s)
  end.

(** A file-backend directory that does not carry instances over from an
    earlier run: [clear] is set, or there is no instances directory. *)
Definition starts_empty (clear : bool) (d : directory) : Prop :=
  clear = true ∨ isdir_instances d = false.

(** What [get_node_instance] raises for an id the store does not hold: the
    [RuntimeError] of [_get_node_instance] from the memory backend, whose
    [_load_instance] returns [None], and from the file backend the
    [KeyError] of the lock table, which [_load_instance] consults first. *)
Definition unknown_instance_error (s : storage) (id : string) : exception :=
  match s with
  | MemoryStore _ => RuntimeError ("Instance " +:+ id +:+ " does not exist")
  | FileStore _ => KeyError id
  end.

(** A store as a constructor returns it with nothing carried over: the
    memory backend, or the file backend on a directory that starts empty. *)
Inductive freshly_constructed : storage → Prop :=
  | fresh_memory name resources_root nodes node_instances :
      freshly_constructed
        (MemoryStore (InMemoryStorage.__init__ name resources_root nodes
                        node_instances))
  | fresh_file name resources_root nodes node_instances storage_dir clear d :
      starts_empty clear d →
      freshly_constructed
        (FileStore (FileStorage.__init__ name resources_root nodes
                      node_instances storage_dir clear d)).


(** ** A small deployment *)

(** Two instances of a node [web_server] and one of [db], used where a
    concrete store is needed. *)
Definition example_instance (id node : string)
    (properties : option (gmap string value)) : NodeInstance :=
  {| ni_id := id; ni_name := node; ni_node_id := node; ni_state := None;
     ni_runtime_properties := properties; ni_version := 0;
     ni_relationships := Some [] |}.

Definition example_instances : list NodeInstance :=
  [ example_instance "web_1" "web_server" (Some {[ "ip" := VStr "10.0.0.1" ]});
    example_instance "web_2" "web_server" None;
    example_instance "db_1" "db" (Some {[ "port" := VInt 5432 ]}) ].

Definition example_memory : storage :=
  MemoryStore (InMemoryStorage.__init__ "local" "/blueprint" []
                 example_instances).

Definition example_file : storage :=
  FileStore (FileStorage.__init__ "local" "/blueprint" [] example_instances
               "/tmp/cloudify-workflows" false Missing).

(** The file backend constructed a second time, with [clear] left unset,
    on the directory an earlier run left after one update of [db_1]. *)
Definition example_earlier_run : directory :=
  match (run_calls [UpdateNodeInstance "db_1" 0 None (Some "started")]
           example_file).2 with
  | FileStore s => FileStorage.disk s
  | MemoryStore _ => Missing
  end.

Definition example_reopened : storage :=
  FileStore (FileStorage.__init__ "local" "/blueprint" [] example_instances
               "/tmp/cloudify-workflows" false example_earlier_run).

(** ** The store contract *)

(** What a call does in terms of the stored instances alone, after the
    contract of the instance store: a read returns what is stored, an
    update of a stored instance is rejected when it gives no state and a
    version other than the stored one and is applied otherwise, and a call
    for an id that is not stored fails. *)
Definition contract (s : storage) (c : call) : outcome storage answer :=
  match c with
  | GetNodeInstance id =>
      match contents s !! id with
      | Some i => Return (AnInstance i) s
      | None => Raise (unknown_instance_error s id) s
      end
  | GetNodeInstances => Return (SomeInstances (values (contents s))) s
  | UpdateNodeInstance id v rp st =>
      match contents s !! id with
      | None => Raise (KeyError id) s
      | Some i =>
          if bool_decide (st = None) && negb (bool_decide (v = ni_version i))
          then Raise (StorageConflictError v id (ni_version i)) s
          else Return Updated
                 (with_contents (<[id := updated rp st i]> (contents s)) s)
      end
  end.

(** Two results a caller cannot tell apart by value or by kind of error. *)
Definition same_result (r1 r2 : result answer) : Prop :=
  match r1, r2 with
  | inr a1, inr a2 => a1 = a2
  | inl e1, inl e2 => store_error_of e1 = store_error_of e2
  | _, _ => False
  end.

(** ** Workflow parameters, by name *)

(** A declared parameter without a default that the caller did not give. *)
Definition missing_mandatory (workflow_parameters : gmap string WorkflowParameter)
    (execution_parameters : gmap string value) (name : string) : Prop :=
  ∃ param, workflow_parameters !! name = Some param ∧
           p_default param = None ∧ execution_parameters !! name = None.

(** A name occurs in a message. *)
Definition occurs_in (name message : string) : Prop :=
  ∃ before after, message = before +:+ name +:+ after.

(** A parameter the caller gave that the workflow does not declare. *)
Definition undeclared (workflow_parameters : gmap string WorkflowParameter)
    (execution_parameters : gmap string value) (name : string) : Prop :=
  workflow_parameters !! name = None ∧ is_Some (execution_parameters !! name).

(** The value a name has after merging: for a declared parameter the
    caller's value when given and the declared default otherwise, for any
    other name the caller's value. *)
Definition merged_value (workflow_parameters : gmap string WorkflowParameter)
    (execution_parameters : gmap string value) (name : string) : option value :=
  match workflow_parameters !! name with
  | Some param =>
      match execution_parameters !! name with
      | Some v => Some v
      | None => p_default param
      end
  | None => execution_parameters !! name
  end.

(** A workflow with two mandatory parameters and one with a default, the
    module that implements it, and an environment on the example store. *)
Definition example_modules : gmap string (gmap string string) :=
  {[ "cloudify.plugins.workflows" :=
       {[ "scale" := "<function scale>"; "install" := "<function install>" ]} ]}.

Definition example_import_module : string → result (module string) :=
  importlib.import_module example_modules.

Definition example_workflow : Workflow :=
  {| wf_operation := "cloudify.plugins.workflows.scale";
     wf_parameters :=
       Some {[ "node_id" := {| p_default := None |};
               "reason" := {| p_default := None |};
               "delta" := {| p_default := Some (VInt 1) |} ]} |}.

Definition example_plan : Plan :=
  {| plan_nodes := [];
     plan_node_instances := example_instances;
     plan_workflows := {[ "scale" := example_workflow ]};
     plan_outputs :=
       {[ "endpoint" := VDict [("get_attribute",
                                VList [VStr "web_server"; VStr "ip"])];
          "port" := VInt 8080 ]} |}.

Definition example_environment : Environment :=
  {| env_name := "local"; env_plan := example_plan;
     env_storage := example_memory |}.

(** ** Outputs, by name *)

(** The list a [get_attribute] of [node_name] and [attribute_name] stands
    for: one entry for each instance of the node, in the order the store
    lists them, the attribute's value or [None]. *)
Definition attribute_values (instances : list NodeInstance)
    (node_name attribute_name : string) : list value :=
  (λ instance,
     match ni_runtime_properties instance with
     | Some properties => default VNone (properties !! attribute_name)
     | None => VNone
     end) <$> filter (λ instance, ni_node_id instance = node_name) instances.

(** ** Operation descriptors *)

(** The module and the attribute a dotted path names. *)
Definition module_of (module_method_path : string) : string :=
  join "." (but_last (split "."%char module_method_path)).
Definition method_of (module_method_path : string) : string :=
  last_item (split "."%char module_method_path).

(** A path resolves when its module can be imported and has the attribute. *)
Definition resolves {callable}
    (import_module : string → result (module callable))
    (module_method_path : string) : Prop :=
  ∃ module, import_module (module_of module_method_path) = inr module ∧
            is_Some (attributes module !! method_of module_method_path).

(** The operation descriptors of a node with their kind: its own
    operations and the source and target operations of its relationships. *)
Inductive descriptor_of (node : Node) : string → Operation → Prop :=
  | own_operation k operation :
      default ∅ (n_operations node) !! k = Some operation →
      descriptor_of node "operations" operation
  | source_operation relationship k operation :
      relationship ∈ default [] (n_relationships node) →
      default ∅ (rel_source_operations relationship) !! k = Some operation →
      descriptor_of node "source_operations" operation
  | target_operation relationship k operation :
      relationship ∈ default [] (n_relationships node) →
      default ∅ (rel_target_operations relationship) !! k = Some operation →
      descriptor_of node "target_operations" operation.

(** The exception [_get_module_method] raises for a path that does not
    resolve.  When the import raises [ImportError], or the module lacks the
    attribute, the message has the node and the kind; any other exception
    of the import is the import's own. *)
Definition mapping_error {callable}
    (import_module : string → result (module callable))
    (module_method_path tpe node_name : string) : exception :=
  match import_module (module_of module_method_path) with
  | inl (ImportError _) =>
      ImportError
        ("mapping error: No module named " +:+ module_of module_method_path +:+
         " [node=" +:+ node_name +:+ ", type=" +:+ tpe +:+ "]")
  | inl e => e
  | inr module =>
      AttributeError
        ("mapping error: " +:+ __name__ module +:+
         " has no attribute '" +:+ method_of module_method_path +:+
         "' [node=" +:+ node_name +:+ ", type=" +:+ tpe +:+ "]")
  end.

(** A node whose operation [create] is mapped to a module that does not
    exist, in a plan of its own. *)
Definition example_broken_node : Node :=
  {| n_id := "web_server";
     n_operations :=
       Some {[ "cloudify.interfaces.lifecycle.create" :=
                 {| op_operation := "no_such_plugin.tasks.create" |} ]};
     n_relationships := None |}.

Definition example_broken_plan : Plan :=
  {| plan_nodes := [example_broken_node];
     plan_node_instances := example_instances;
     plan_workflows := {[ "scale" := example_workflow ]};
     plan_outputs := ∅ |}.

(** A parser for the example outputs: the dictionary with the one key
    [get_attribute] and a list of two strings is a [GetAttribute]. *)
Definition example_parse (v : value) : parsed :=
  match v with
  | VDict [(f, VList [VStr node_name; VStr attribute_name])] =>
      if decide (f = "get_attribute")
      then GetAttribute node_name attribute_name
      else NotGetAttribute
  | _ => NotGetAttribute
  end.



(** ** Nodes of a store *)

(** [self._nodes], the dictionary [Storage.__init__] builds from the node
    list. *)
Class Nodes (S : Type) := { nodes_of : S → gmap string Node }.

#[export] Instance InMemoryStorage_nodes : Nodes InMemoryStorage.t := {|
  nodes_of := InMemoryStorage._nodes;
|}.

#[export] Instance FileStorage_nodes : Nodes FileStorage.t := {|
  nodes_of := FileStorage._nodes;
|}.

#[export] Instance storage_nodes : Nodes storage := {|
  nodes_of := λ s, match s with
                   | MemoryStore s => nodes_of s
                   | FileStore s => nodes_of s
                   end;
|}.

(** [Storage.get_node] and [Storage.get_nodes]; [copy.deepcopy] of a value
    is the value. *)
Definition get_node {S} `{!Nodes S} (node_id : string) : M S Node :=
  node <- gets (λ s, nodes_of s !! node_id) ;;
  match node with
  | None => raise (RuntimeError ("Node " +:+ node_id +:+ " does not exist"))
  | Some node => ret node
  end.

Definition get_nodes {S} `{!Nodes S} : M S (list Node) :=
  gets (λ s, values (nodes_of s)).

(** ** Comparing the backends *)

(** A result of the memory backend and one of the file backend that a
    caller can tell apart by nothing but the order of a listing and the
    type of the exception for an unknown id: the same instance, the same
    instances in some order, the same exception, or the [RuntimeError] and
    the [KeyError] a read of an unknown id raises. *)
Definition same_but_order_and_unknown_read (r1 r2 : result answer) : Prop :=
  match r1, r2 with
  | inr (AnInstance i1), inr (AnInstance i2) => i1 = i2
  | inr (SomeInstances l1), inr (SomeInstances l2) => l1 ≡ₚ l2
  | inr Updated, inr Updated => True
  | inl e1, inl e2 =>
      e1 = e2 ∨
      ∃ id, e1 = RuntimeError ("Instance " +:+ id +:+ " does not exist") ∧
            e2 = KeyError id
  | _, _ => False
  end.

(** The last element of a list with a given key. *)
Definition last_with {A} (key : A → string) (l : list A) (x : A) : Prop :=
  ∃ l1 l2 : list A, l = (l1 ++ x :: l2)%list ∧ key x ∉ key <$> l2.

(** ** A deployment with nodes *)

Definition example_node (id : string) : Node :=
  {| n_id := id;
     n_operations :=
       Some {[ "cloudify.interfaces.lifecycle.create" :=
                 {| op_operation := "cloudify.plugins.workflows.install" |} ]};
     n_relationships := None |}.

Definition example_nodes : list Node :=
  [ example_node "web_server"; example_node "db" ].

(** ** Prepared plans *)

(** A node as [_prepare_nodes_and_instances] leaves it: an absent
    ['relationships'] key becomes the empty list. *)
Definition with_relationships (node : Node) : Node :=
  match n_relationships node with
  | None => {| n_id := n_id node; n_operations := n_operations node;
               n_relationships := Some [] |}
  | Some _ => node
  end.

(** The storage classes [__init__] accepts: no class given, which stands
    for [InMemoryStorage], or one of the two backends. *)
Definition accepted_class (storage_cls : option storage_class) : Prop :=
  match default InMemoryStorageClass storage_cls with
  | InMemoryStorageClass | FileStorageClass => True
  | StorageClass | OtherClass _ => False
  end.

(** The name [__init__] reports for a class it refuses. *)
Definition refused_class_name (cls : storage_class) : option string :=
  match cls with
  | StorageClass => Some "Storage"
  | OtherClass cls_name => Some cls_name
  | InMemoryStorageClass | FileStorageClass => None
  end.

(** A string without a dot. *)
Fixpoint no_dot (s : string) : bool :=
  match s with
  | EmptyString => true
  | String c s' => if decide (c = "."%char) then false else no_dot s'
  end.

(** The example plan with nodes, and the environment constructed from it
    on the memory backend. *)
Definition example_plan_with_nodes : Plan :=
  {| plan_nodes := example_nodes;
     plan_node_instances := example_instances;
     plan_workflows := {[ "scale" := example_workflow ]};
     plan_outputs := plan_outputs example_plan |}.

Definition example_constructed : Environment :=
  {| env_name := "local"; env_plan := example_plan_with_nodes;
     env_storage :=
       MemoryStore (InMemoryStorage.__init__ "local" "/blueprint"
                      (with_relationships <$> example_nodes)
                      (prepare_node_instance <$> example_instances)) |}.

(** A workflow mapped to a function its module does not have, with a
    mandatory parameter, in an environment of its own. *)
Definition example_unmapped_workflow : Workflow :=
  {| wf_operation := "cloudify.plugins.workflows.heal";
     wf_parameters := Some {[ "node_id" := {| p_default := None |} ]} |}.

Definition example_unmapped_environment : Environment :=
  {| env_name := "local";
     env_plan :=
       {| plan_nodes := []; plan_node_instances := example_instances;
          plan_workflows := {[ "heal" := example_unmapped_workflow ]};
          plan_outputs := ∅ |};
     env_storage := example_memory |}.

(** A plan whose outputs are literals only, in an environment whose file
    store has lost its directory, so that every read of it fails. *)
Definition example_lost_store : storage :=
  match example_file with
  | FileStore s => FileStore (FileStorage.with_disk Missing s)
  | MemoryStore s => MemoryStore s
  end.

Definition example_literal_environment : Environment :=
  {| env_name := "local";
     env_plan :=
       {| plan_nodes := []; plan_node_instances := example_instances;
          plan_workflows := ∅;
          plan_outputs := {[ "port" := VInt 8080 ]} |};
     env_storage := example_lost_store |}.

Definition example_lost_environment : Environment :=
  {| env_name := "local"; env_plan := example_plan;
     env_storage := example_lost_store |}.

(** ** Resources *)

(** [os.path.basename]: what follows the last slash. *)
Definition os_path_basename (p : string) : string :=
  last_item (split "/"%char p).

Section resources.
(** The files [open] sees, by path, with their content; the paths
    [open(path, 'w')] can create or truncate; and [tempfile.mktemp], which
    names a file from a suffix and creates nothing. *)
Variable writable : string → bool.
Variable mktemp : string → string.
(** [self.resources_root]. *)
Variable resources_root : string.

Definition get_resource (resource_path : string)
  : M (gmap string string) string :=
  let path := os_path_join resources_root resource_path in
  f <- gets (λ fs, fs !! path) ;;
  match f with
  | Some content => ret content
  | None => raise (IOError path)
  end.

(** [if not target_path]: [None] and the empty string alike. *)
Definition download_resource (resource_path : string)
    (target_path : option string) : M (gmap string string) string :=
  let target_path :=
    match target_path with
    | None | Some EmptyString =>
        let suffix := "-" +:+ os_path_basename resource_path in
        mktemp suffix
    | Some target_path => target_path
    end in
  resource <- get_resource resource_path ;;
  (if writable target_path
   then modify (λ fs, <[target_path := resource]> fs)
   else raise (IOError target_path)) ;;;
  ret target_path.
End resources.

(** A blueprint directory with one resource, a [mktemp] that names files
    under [/tmp], and an [open] that can write there only. *)
Definition example_files : gmap string string :=
  {[ "/blueprint/scripts/start.sh" := "#!/bin/sh" ]}.

Definition example_mktemp (suffix : string) : string := "/tmp/tmpq3x9" +:+ suffix.

Definition example_writable (path : string) : bool :=
  match split "/"%char path with
  | [EmptyString; dir; _] => bool_decide (dir = "tmp")
  | _ => false
  end.

(** * Properties *)

(** ** The monad *)

Lemma bind_return {S A B} (c : M S A) (k : A → M S B) s a s' :
  c s = Return a s' → bind c k s = k a s'.
Proof. unfold bind. by intros ->. Qed.

Lemma bind_raise {S A B} (c : M S A) (k : A → M S B) s e s' :
  c s = Raise e s' → bind c k s = Raise e s'.
Proof. unfold bind. by intros ->. Qed.

(** ** Node instances *)

Lemma ni_id_updated rp st i : ni_id (updated rp st i) = ni_id i.
Proof. unfold updated. by destruct rp, st. Qed.

Lemma ni_version_updated rp st i :
  ni_version (updated rp st i) = (ni_version i + 1)%Z.
Proof. unfold updated. by destruct rp, st. Qed.

Lemma ni_state_updated rp st i :
  ni_state (updated rp (Some st) i) = Some st.
Proof. unfold updated. by destruct rp. Qed.

Lemma ni_runtime_properties_updated p st i :
  ni_runtime_properties (updated (Some p) st i) = Some p.
Proof. unfold updated. by destruct st. Qed.

(** ** update_node_instance *)

Lemma lock_held {S} `{!Locks S} id (s : S) :
  id ∈ _locks s → _lock id s = Return tt s.
Proof. unfold _lock. intros H. by rewrite decide_True. Qed.

Lemma lock_unknown {S} `{!Locks S} id (s : S) :
  id ∉ _locks s → _lock id s = Raise (KeyError id) s.
Proof. unfold _lock. intros H. by rewrite decide_False. Qed.

Lemma locks_contents (s : storage) :
  consistent s → _locks s = dom (contents s).
Proof. destruct s as [m|f]; simpl; [done|]. by intros (_ & ? & _). Qed.

Lemma update_unknown (s : storage) id v rp st :
  consistent s → contents s !! id = None →
  update_node_instance id v rp st s = Raise (KeyError id) s.
Proof.
  intros Hc Hid. unfold update_node_instance.
  apply bind_raise, lock_unknown.
  rewrite (locks_contents s Hc). by apply not_elem_of_dom.
Qed.

Lemma file_get_stored (f : FileStorage.t) id i :
  file_consistent f → file_contents f !! id = Some i →
  _get_node_instance id f = Return i f.
Proof.
  intros (Hd & Hl & Hk) Hid. unfold _get_node_instance; simpl.
  unfold bind, ret. rewrite lock_held; last first.
  { simpl. rewrite Hl. apply elem_of_dom; eauto. }
  unfold FileStorage.read_file, file_contents in *.
  destruct (FileStorage.disk f); try done. by rewrite Hid.
Qed.

Lemma get_stored (s : storage) id i :
  consistent s → contents s !! id = Some i →
  _get_node_instance id s = Return i s.
Proof.
  intros Hc Hid. destruct s as [m|f]; simpl in *.
  - unfold _get_node_instance, bind, dispatch, gets, ret; simpl.
    unfold mem_contents in Hid. by rewrite Hid.
  - pose proof (file_get_stored f id i Hc Hid) as Hg.
    unfold _get_node_instance, bind, dispatch in *; simpl in *.
    destruct (bind _ _ f) as [e f'|[i'|] f'] eqn:E; simpl in *;
      unfold ret, raise in *; congruence.
Qed.

Lemma update_stale (s : storage) id i v rp :
  consistent s → contents s !! id = Some i → v ≠ ni_version i →
  update_node_instance id v rp None s
  = Raise (StorageConflictError v id (ni_version i)) s.
Proof.
  intros Hc Hid Hv. unfold update_node_instance.
  rewrite (bind_return _ _ s tt s); last first.
  { apply lock_held. rewrite (locks_contents s Hc). apply elem_of_dom; eauto. }
  rewrite (bind_return _ _ s i s); last by apply get_stored.
  apply bind_raise.
  rewrite bool_decide_true by done. rewrite bool_decide_false by done.
  done.
Qed.

Lemma update_accepted (s : storage) id i v rp st :
  consistent s → contents s !! id = Some i →
  is_Some st ∨ v = ni_version i →
  update_node_instance id v rp st s
  = Return tt (with_contents (<[id := updated rp st i]> (contents s)) s).
Proof.
  intros Hc Hid Hok. unfold update_node_instance.
  rewrite (bind_return _ _ s tt s); last first.
  { apply lock_held. rewrite (locks_contents s Hc). apply elem_of_dom; eauto. }
  rewrite (bind_return _ _ s i s); last by apply get_stored.
  assert (bool_decide (st = None) && negb (bool_decide (v = ni_version i))
          = false) as ->.
  { destruct Hok as [[x ->] | ->].
    - done.
    - rewrite (bool_decide_true (ni_version i = ni_version i)) by done.
      apply andb_false_r. }
  destruct s as [m|f]; simpl in *.
  - unfold updated, bind, ret, dispatch, modify; simpl.
    unfold mem_contents, InMemoryStorage.with_instances; simpl.
    destruct rp, st; simpl; rewrite ?insert_insert_eq; done.
  - destruct Hc as (Hd & Hl & Hk).
    unfold file_contents in *.
    destruct (FileStorage.disk f) as [| |files] eqn:Hdisk; try done.
    assert (ni_id i = id) as Hi by (by apply (Hk id i)).
    assert (ni_id i ∈ FileStorage.locks f) as Hin.
    { rewrite Hl, Hi. apply elem_of_dom; eauto. }
    unfold updated, bind, ret, dispatch; simpl.
    destruct rp, st; simpl;
      (rewrite lock_held by done); unfold FileStorage.write_file;
      rewrite Hdisk; simpl; rewrite Hi; done.
Qed.

Lemma contents_with_contents m (s : storage) :
  contents (with_contents m s) = m.
Proof. by destruct s. Qed.

Lemma keyed_by_id_update m id i rp st :
  keyed_by_id m → m !! id = Some i →
  keyed_by_id (<[id := updated rp st i]> m).
Proof.
  intros Hk Hid. apply map_Forall_insert_2; [|done].
  rewrite ni_id_updated. by apply (Hk id i).
Qed.

Lemma dom_update (m : gmap string NodeInstance) id i i' :
  m !! id = Some i → dom (<[id := i']> m) = dom m.
Proof.
  intros Hid. apply dom_insert_lookup_L. eauto.
Qed.

Lemma consistent_update (s : storage) id i rp st :
  consistent s → contents s !! id = Some i →
  consistent (with_contents (<[id := updated rp st i]> (contents s)) s).
Proof.
  destruct s as [m|f]; simpl.
  - unfold mem_consistent, mem_contents; simpl. intros -> Hid.
    symmetry. by eapply dom_update.
  - unfold file_consistent, file_contents; simpl.
    intros (Hd & Hl & Hk) Hid. split_and!; [done| |].
    + rewrite Hl. symmetry. by eapply dom_update.
    + by apply keyed_by_id_update.
Qed.

(** ** get_node_instance and get_node_instances *)

Lemma get_node_instance_stored (s : storage) id i :
  consistent s → contents s !! id = Some i →
  get_node_instance id s = Return i s.
Proof.
  intros Hc Hid. destruct s as [m|f]; simpl in *.
  - unfold InMemoryStorage.get_node_instance.
    unfold _get_node_instance, bind, dispatch in *; simpl in *.
    unfold gets in *. unfold mem_contents in Hid. by rewrite Hid.
  - unfold FileStorage.get_node_instance.
    by rewrite (file_get_stored f id i Hc Hid).
Qed.

Lemma get_node_instance_unknown (s : storage) id :
  consistent s → contents s !! id = None →
  get_node_instance id s = Raise (unknown_instance_error s id) s.
Proof.
  intros Hc Hid. destruct s as [m|f]; simpl in *.
  - unfold InMemoryStorage.get_node_instance, _get_node_instance.
    unfold bind, gets; simpl. unfold mem_contents in Hid. by rewrite Hid.
  - destruct Hc as (Hd & Hl & Hk).
    unfold FileStorage.get_node_instance, _get_node_instance.
    unfold bind; simpl. unfold bind.
    rewrite lock_unknown; [done|].
    simpl. rewrite Hl. by apply not_elem_of_dom.
Qed.

Lemma for_each_stored (f : FileStorage.t) (l : list (string * NodeInstance)) :
  file_consistent f →
  (∀ k i, (k, i) ∈ l → file_contents f !! k = Some i) →
  for_each _get_node_instance l.*1 f = Return l.*2 f.
Proof.
  intros Hc. induction l as [|[k i] l IH]; intros Hl; simpl; [done|].
  rewrite (bind_return _ _ f i f); last first.
  { apply file_get_stored; [done|]. apply Hl. by left. }
  rewrite (bind_return _ _ f l.*2 f); [done|].
  apply IH. intros k' i' Hin. apply Hl. by right.
Qed.

Lemma get_node_instances_all (s : storage) :
  consistent s →
  get_node_instances s = Return (values (contents s)) s.
Proof.
  intros Hc. destruct s as [m|f]; simpl in *; [done|].
  pose proof Hc as (Hd & Hl & Hk).
  unfold FileStorage.get_node_instances, bind; simpl.
  unfold FileStorage.instance_ids, file_contents in *.
  destruct (FileStorage.disk f) as [| |files] eqn:Hdisk; try done.
  unfold keys, values. rewrite (for_each_stored f (map_to_list files)); try done.
  intros k i Hin. unfold file_contents. rewrite Hdisk.
  by apply elem_of_map_to_list.
Qed.

(** ** The constructors *)

Lemma keyed_by_id_dict (l : list NodeInstance) :
  keyed_by_id (dict ((λ instance, (ni_id instance, instance)) <$> l)).
Proof.
  intros k i Hk. unfold dict in Hk.
  apply elem_of_list_to_map_2 in Hk.
  apply elem_of_reverse, list_elem_of_fmap in Hk as (i' & Heq & _).
  by simplify_eq.
Qed.

Lemma keyed_by_id_fmap n (m : gmap string NodeInstance) :
  keyed_by_id m → keyed_by_id (set_version n <$> m).
Proof.
  intros Hk k i. rewrite lookup_fmap.
  destruct (m !! k) as [i'|] eqn:E; simpl; [|done].
  intros [= <-]. simpl. by apply (Hk k i').
Qed.

Lemma list_to_set_keys {A} (m : gmap string A) :
  list_to_set (keys m) = dom m.
Proof. unfold keys. apply leibniz_equiv. by rewrite dom_alt. Qed.

Lemma foldl_insert_lookup (l : list (string * NodeInstance))
    (acc : gmap string NodeInstance) k :
  NoDup l.*1 → (∀ k' i, (k', i) ∈ l → ni_id i = k') →
  foldl (λ files instance, <[ni_id instance := instance]> files) acc l.*2 !! k
  = match list_to_map (M := gmap string NodeInstance) l !! k with
    | Some i => Some i
    | None => acc !! k
    end.
Proof.
  revert acc. induction l as [|[k' i] l IH]; intros acc Hnd Hid; simpl.
  - by rewrite lookup_empty.
  - apply NoDup_cons in Hnd as [Hk' Hnd].
    rewrite IH; [|done|intros; apply Hid; by right].
    assert (ni_id i = k') as -> by (apply Hid; by left).
    destruct (decide (k' = k)) as [->|Hne].
    + rewrite lookup_insert_eq.
      rewrite (not_elem_of_list_to_map_1 _ k) by done.
      by rewrite lookup_insert_eq.
    + rewrite (lookup_insert_ne (list_to_map l)) by done.
      destruct (list_to_map l !! k); [done|]. by rewrite lookup_insert_ne.
Qed.

Lemma foldl_insert_values (m : gmap string NodeInstance) :
  keyed_by_id m →
  foldl (λ files instance, <[ni_id instance := instance]> files) ∅ (values m)
  = m.
Proof.
  intros Hk. apply map_eq. intros k. unfold values.
  rewrite foldl_insert_lookup.
  - rewrite list_to_map_to_list, lookup_empty. by destruct (m !! k).
  - apply NoDup_fst_map_to_list.
  - intros k' i Hin. apply elem_of_map_to_list in Hin. by apply (Hk k' i).
Qed.

Lemma mem_init_consistent name root nodes insts :
  mem_consistent (InMemoryStorage.__init__ name root nodes insts).
Proof. unfold mem_consistent; simpl. apply list_to_set_keys. Qed.

Lemma mem_init_version name root nodes insts id i :
  mem_contents (InMemoryStorage.__init__ name root nodes insts) !! id = Some i →
  ni_version i = 0%Z.
Proof.
  unfold mem_contents; simpl. rewrite lookup_fmap.
  destruct (dict _ !! id); simpl; [|done]. by intros [= <-].
Qed.

Lemma file_init_empty name root nodes insts dir clear d :
  starts_empty clear d →
  let f := FileStorage.__init__ name root nodes insts dir clear d in
  let m := set_version 0 <$>
             dict ((λ instance, (ni_id instance, instance)) <$> insts) in
  FileStorage.disk f = Instances m ∧ FileStorage.locks f = dom m.
Proof.
  intros Hfresh f m.
  assert (keyed_by_id m) as Hk by apply keyed_by_id_fmap, keyed_by_id_dict.
  unfold f, FileStorage.__init__; simpl.
  destruct Hfresh as [->|Hd].
  - rewrite andb_true_r.
    destruct d; (split; [cbn; by rewrite foldl_insert_values
                        |apply list_to_set_keys]).
  - destruct d, clear; try done;
      (split; [cbn; by rewrite foldl_insert_values|apply list_to_set_keys]).
Qed.

Lemma file_init_kept name root nodes insts dir files :
  let f := FileStorage.__init__ name root nodes insts dir false
             (Instances files) in
  FileStorage.disk f = Instances files ∧ FileStorage.locks f = dom files.
Proof. simpl. split; [done|]. apply list_to_set_keys. Qed.

Lemma freshly_constructed_consistent s :
  freshly_constructed s → consistent s.
Proof.
  destruct 1 as [name root nodes insts|name root nodes insts dir clear d Hd].
  - apply mem_init_consistent.
  - destruct (file_init_empty name root nodes insts dir clear d Hd)
      as [Hdisk Hlocks].
    simpl. unfold file_consistent, file_contents. rewrite Hdisk.
    split_and!; [done|done|]. apply keyed_by_id_fmap, keyed_by_id_dict.
Qed.

Lemma freshly_constructed_version s id i :
  freshly_constructed s → contents s !! id = Some i → ni_version i = 0%Z.
Proof.
  destruct 1 as [name root nodes insts|name root nodes insts dir clear d Hd].
  - apply mem_init_version.
  - destruct (file_init_empty name root nodes insts dir clear d Hd)
      as [Hdisk _].
    simpl. unfold file_contents. rewrite Hdisk, lookup_fmap.
    destruct (dict _ !! id); simpl; [|done]. by intros [= <-].
Qed.

(** ** Sequences of calls *)

(** A call on a consistent store raises and leaves the store as it was,
    or is a read that returns, or is an accepted update of a stored
    instance. *)
Lemma run_call_cases (s : storage) c :
  consistent s →
  (∃ e, run_call c s = Raise e s) ∨
  (∃ a, run_call c s = Return a s ∧
        match c with UpdateNodeInstance _ _ _ _ => False | _ => True end) ∨
  (∃ id v rp st i,
      c = UpdateNodeInstance id v rp st ∧ contents s !! id = Some i ∧
      run_call c s
      = Return Updated (with_contents (<[id := updated rp st i]> (contents s)) s)).
Proof.
  intros Hc. destruct c as [id| |id v rp st]; unfold run_call.
  - destruct (contents s !! id) as [i|] eqn:Hid.
    + right; left. exists (AnInstance i). split; [|done].
      by rewrite (bind_return _ _ s i s)
        by by apply get_node_instance_stored.
    + left. eexists. apply bind_raise. by apply get_node_instance_unknown.
  - right; left. eexists. split; [|done].
    by rewrite (bind_return _ _ s _ s) by by apply get_node_instances_all.
  - destruct (contents s !! id) as [i|] eqn:Hid.
    + destruct (decide (is_Some st ∨ v = ni_version i)) as [Hok|Hstale].
      * right; right. exists id, v, rp, st, i. split_and!; [done..|].
        by rewrite (bind_return _ _ s tt _)
          by by apply update_accepted.
      * left. eexists. apply bind_raise.
        destruct st as [st|]; [destruct Hstale; left; eauto|].
        apply update_stale; [done..|]. intros ->. destruct Hstale. by right.
    + left. eexists. apply bind_raise. by apply update_unknown.
Qed.

Lemma run_calls_versions cs (s : storage) :
  consistent s →
  consistent (run_calls cs s).2 ∧
  ∀ id i, contents s !! id = Some i →
    ∃ i', contents (run_calls cs s).2 !! id = Some i' ∧
          ni_version i'
          = (ni_version i + successful_updates id cs (run_calls cs s).1)%Z.
Proof.
  revert s. induction cs as [|c cs IH]; intros s Hc; simpl.
  { split; [done|]. intros id i Hid. exists i. split; [done|lia]. }
  destruct (run_call_cases s c Hc)
    as [[e He]|[(a & Ha & Hread)|(id0 & v & rp & st & i0 & -> & Hid0 & Hu)]].
  - rewrite He. destruct (run_calls cs s) as [rs s'] eqn:E.
    destruct (IH s Hc) as [Hc' Hv]. rewrite E in Hc', Hv. simpl in *.
    split; [done|]. intros id i Hid.
    destruct (Hv id i Hid) as (i' & Hi' & Hver). exists i'. split; [done|].
    rewrite Hver. by destruct c.
  - rewrite Ha. destruct (run_calls cs s) as [rs s'] eqn:E.
    destruct (IH s Hc) as [Hc' Hv]. rewrite E in Hc', Hv. simpl in *.
    split; [done|]. intros id i Hid.
    destruct (Hv id i Hid) as (i' & Hi' & Hver). exists i'. split; [done|].
    rewrite Hver. by destruct c.
  - rewrite Hu.
    set (s1 := with_contents (<[id0 := updated rp st i0]> (contents s)) s).
    assert (consistent s1) as Hc1 by by apply consistent_update.
    destruct (run_calls cs s1) as [rs s'] eqn:E.
    destruct (IH s1 Hc1) as [Hc' Hv]. rewrite E in Hc', Hv. simpl in *.
    split; [done|]. intros id i Hid.
    destruct (decide (id0 = id)) as [->|Hne].
    + rewrite bool_decide_true by done.
      destruct (Hv id (updated rp st i0)) as (i' & Hi' & Hver).
      { unfold s1. rewrite contents_with_contents. apply lookup_insert_eq. }
      exists i'. split; [done|].
      rewrite Hver, ni_version_updated. simplify_eq. lia.
    + rewrite bool_decide_false by done.
      destruct (Hv id i) as (i' & Hi' & Hver).
      { unfold s1. rewrite contents_with_contents.
        by rewrite lookup_insert_ne. }
      exists i'. split; [done|]. rewrite Hver. lia.
Qed.

(** ** The update protocol *)

(** C1. A property update (no [state]) whose [version] differs from the
    stored version raises [StorageConflictError] and leaves the store, and
    with it the instance's runtime properties, state and version, as they
    were. *)
Theorem stale_property_update_is_rejected (s : storage) id i v rp :
  consistent s → contents s !! id = Some i → v ≠ ni_version i →
  update_node_instance id v rp None s
  = Raise (StorageConflictError v id (ni_version i)) s ∧
  store_error_of (StorageConflictError v id (ni_version i)) = Conflict ∧
  contents (final (update_node_instance id v rp None s)) !! id = Some i.
Proof.
  intros Hc Hid Hv. rewrite (update_stale s id i v rp Hc Hid Hv). done.
Qed.

Lemma stale_property_update_is_rejected_witness :
  let i := example_instance "web_2" "web_server" None in
  let p : gmap string value := {[ "ip" := VStr "10.0.0.2" ]} in
  consistent example_memory ∧
  contents example_memory !! "web_2" = Some i ∧
  3%Z ≠ ni_version i ∧
  update_node_instance "web_2" 3 (Some p) None example_memory
  = Raise (StorageConflictError 3 "web_2" (ni_version i)) example_memory ∧
  store_error_of (StorageConflictError 3 "web_2" (ni_version i)) = Conflict ∧
  contents (final (update_node_instance "web_2" 3 (Some p) None
                     example_memory)) !! "web_2" = Some i.
Proof.
  intros i p.
  assert (consistent example_memory) as Hc by (vm_compute; reflexivity).
  assert (contents example_memory !! "web_2" = Some i) as Hid
    by (vm_compute; reflexivity).
  assert (3%Z ≠ ni_version i) as Hv by (simpl; lia).
  split; [exact Hc|]. split; [exact Hid|]. split; [exact Hv|].
  exact (stale_property_update_is_rejected example_memory "web_2" i 3
           (Some p) Hc Hid Hv).
Defined.

(** C2. An update that gives a [state] is accepted whatever [version] it
    carries: it returns, the stored version grows by exactly one, the state
    is the one given, the runtime properties are the ones given if any and
    the old ones otherwise, and no other instance changes. *)
Theorem state_transition_is_always_accepted (s : storage) id i v rp st :
  consistent s → contents s !! id = Some i →
  ∃ s' i',
    update_node_instance id v rp (Some st) s = Return tt s' ∧
    contents s' !! id = Some i' ∧
    ni_version i' = (ni_version i + 1)%Z ∧
    ni_state i' = Some st ∧
    ni_runtime_properties i'
    = match rp with Some p => Some p | None => ni_runtime_properties i end ∧
    ∀ id', id' ≠ id → contents s' !! id' = contents s !! id'.
Proof.
  intros Hc Hid.
  exists (with_contents (<[id := updated rp (Some st) i]> (contents s)) s),
         (updated rp (Some st) i).
  split_and!.
  - apply update_accepted; [done..|]. left; eauto.
  - rewrite contents_with_contents. apply lookup_insert_eq.
  - apply ni_version_updated.
  - apply ni_state_updated.
  - by destruct rp.
  - intros id' Hne. rewrite contents_with_contents. by apply lookup_insert_ne.
Qed.

Lemma state_transition_is_always_accepted_witness :
  let i := example_instance "db_1" "db" (Some {[ "port" := VInt 5432 ]}) in
  consistent example_file ∧
  contents example_file !! "db_1" = Some i ∧
  ∃ s' i',
    update_node_instance "db_1" 41 None (Some "started") example_file
    = Return tt s' ∧
    contents s' !! "db_1" = Some i' ∧
    ni_version i' = (ni_version i + 1)%Z ∧
    ni_state i' = Some "started" ∧
    ni_runtime_properties i' = ni_runtime_properties i ∧
    ∀ id', id' ≠ "db_1" → contents s' !! id' = contents example_file !! id'.
Proof.
  intros i.
  assert (consistent example_file) as Hc.
  { split; [reflexivity|]. split; [vm_compute; reflexivity|].
    unfold keyed_by_id. apply (bool_decide_unpack _). vm_compute. exact I. }
  assert (contents example_file !! "db_1" = Some i) as Hid
    by (vm_compute; reflexivity).
  split; [exact Hc|]. split; [exact Hid|].
  exact (state_transition_is_always_accepted example_file "db_1" i 41 None
           "started" Hc Hid).
Defined.

Lemma successful_updates_single id c r :
  (0 ≤ successful_updates id [c] [r] ≤ 1)%Z.
Proof.
  destruct c, r; simpl; try lia. case_bool_decide; lia.
Qed.

(** C3. In a freshly constructed store every instance has version 0; after
    any sequence of calls its version is the number of successful updates
    of it among them, whatever their mix of state transitions and property
    updates; and a single further call adds one to the version when it is
    a successful update of the instance and leaves it otherwise. *)
Theorem version_counts_successful_updates (s : storage) id i :
  freshly_constructed s → contents s !! id = Some i →
  ni_version i = 0%Z ∧
  (∀ cs, ∃ i',
      contents (run_calls cs s).2 !! id = Some i' ∧
      ni_version i' = successful_updates id cs (run_calls cs s).1) ∧
  (∀ cs c, ∃ i1 i2,
      let s1 := (run_calls cs s).2 in
      let step := successful_updates id [c] (run_calls [c] s1).1 in
      contents s1 !! id = Some i1 ∧
      contents (final (run_call c s1)) !! id = Some i2 ∧
      ni_version i2 = (ni_version i1 + step)%Z ∧ (0 ≤ step ≤ 1)%Z).
Proof.
  intros Hfresh Hid.
  pose proof (freshly_constructed_consistent s Hfresh) as Hc.
  pose proof (freshly_constructed_version s id i Hfresh Hid) as Hv0.
  split_and!; [done| |].
  - intros cs. destruct (run_calls_versions cs s Hc) as [_ Hv].
    destruct (Hv id i Hid) as (i' & Hi' & Hver). exists i'. split; [done|].
    rewrite Hver, Hv0. lia.
  - intros cs c. destruct (run_calls_versions cs s Hc) as [Hc1 Hv].
    destruct (Hv id i Hid) as (i1 & Hi1 & _).
    destruct (run_calls_versions [c] _ Hc1) as [_ Hv1].
    destruct (Hv1 id i1 Hi1) as (i2 & Hi2 & Hver).
    exists i1, i2. cbv zeta. simpl in *.
    destruct (run_call c _) as [e s2|a s2]; simpl in *.
    + split; [done|]; split; [done|]; split; [done|].
      apply (successful_updates_single id c (inl e)).
    + split; [done|]; split; [done|]; split; [done|].
      apply (successful_updates_single id c (inr a)).
Qed.

Lemma version_counts_successful_updates_witness :
  let i := example_instance "web_1" "web_server"
             (Some {[ "ip" := VStr "10.0.0.1" ]}) in
  freshly_constructed example_file ∧
  contents example_file !! "web_1" = Some i ∧
  ni_version i = 0%Z ∧
  (∀ cs, ∃ i',
      contents (run_calls cs example_file).2 !! "web_1" = Some i' ∧
      ni_version i'
      = successful_updates "web_1" cs (run_calls cs example_file).1) ∧
  (∀ cs c, ∃ i1 i2,
      let s1 := (run_calls cs example_file).2 in
      let step := successful_updates "web_1" [c] (run_calls [c] s1).1 in
      contents s1 !! "web_1" = Some i1 ∧
      contents (final (run_call c s1)) !! "web_1" = Some i2 ∧
      ni_version i2 = (ni_version i1 + step)%Z ∧ (0 ≤ step ≤ 1)%Z).
Proof.
  intros i.
  assert (freshly_constructed example_file) as Hfresh.
  { apply fresh_file. right. reflexivity. }
  assert (contents example_file !! "web_1" = Some i) as Hid
    by (vm_compute; reflexivity).
  split; [exact Hfresh|]. split; [exact Hid|].
  exact (version_counts_successful_updates example_file "web_1" i Hfresh Hid).
Defined.

(** A run of five calls on the memory backend: a rejected stale property
    update, an accepted one, a state transition with a wrong version, an
    update of another instance and a read leave [web_1] at version 2. *)
Example version_after_mixed_calls :
  let cs :=
    [ UpdateNodeInstance "web_1" 5 (Some ∅) None;
      UpdateNodeInstance "web_1" 0 (Some {[ "ip" := VStr "10.0.0.9" ]}) None;
      UpdateNodeInstance "web_1" 9 None (Some "started");
      UpdateNodeInstance "db_1" 0 None (Some "started");
      GetNodeInstance "web_1" ] in
  ni_version <$> contents (run_calls cs example_memory).2 !! "web_1" = Some 2%Z ∧
  successful_updates "web_1" cs (run_calls cs example_memory).1 = 2%Z.
Proof. vm_compute. done. Qed.

(** A file store opened on the directory of an earlier run takes the
    instances, and their versions, from the files: the constructor's
    [version = 0] reaches only the in-memory instances it then drops. *)
Example reopened_directory_keeps_versions :
  consistent example_reopened ∧
  ni_version <$> contents example_reopened !! "db_1" = Some 1%Z ∧
  ni_state <$> contents example_reopened !! "db_1" = Some (Some "started").
Proof.
  split.
  - split; [reflexivity|]. split; [vm_compute; reflexivity|].
    unfold keyed_by_id. apply (bool_decide_unpack _). vm_compute. exact I.
  - vm_compute. done.
Qed.

(** ** Unknown instance ids *)

(** C5. On either backend, for an id the store does not hold,
    [update_node_instance] and [get_node_instance] raise an error of the
    not-found kind (the [KeyError] of the lock table, or from the memory
    backend's read the [RuntimeError] of [_get_node_instance]) and the
    store is left as it was. *)
Theorem unknown_instance_fails_without_writing (s : storage) id v rp st :
  consistent s → contents s !! id = None →
  update_node_instance id v rp st s = Raise (KeyError id) s ∧
  get_node_instance id s = Raise (unknown_instance_error s id) s ∧
  store_error_of (KeyError id) = NotFound ∧
  store_error_of (unknown_instance_error s id) = NotFound ∧
  final (update_node_instance id v rp st s) = s ∧
  final (get_node_instance id s) = s.
Proof.
  intros Hc Hid.
  rewrite (update_unknown s id v rp st Hc Hid).
  rewrite (get_node_instance_unknown s id Hc Hid).
  split_and!; try done. by destruct s.
Qed.

Lemma unknown_instance_fails_without_writing_witness :
  consistent example_memory ∧
  contents example_memory !! "ghost" = None ∧
  update_node_instance "ghost" 0 None (Some "started") example_memory
  = Raise (KeyError "ghost") example_memory ∧
  get_node_instance "ghost" example_memory
  = Raise (unknown_instance_error example_memory "ghost") example_memory ∧
  store_error_of (KeyError "ghost") = NotFound ∧
  store_error_of (unknown_instance_error example_memory "ghost") = NotFound ∧
  final (update_node_instance "ghost" 0 None (Some "started") example_memory)
  = example_memory ∧
  final (get_node_instance "ghost" example_memory) = example_memory.
Proof.
  assert (consistent example_memory) as Hc by (vm_compute; reflexivity).
  assert (contents example_memory !! "ghost" = None) as Hid
    by (vm_compute; reflexivity).
  split; [exact Hc|]. split; [exact Hid|].
  exact (unknown_instance_fails_without_writing example_memory "ghost" 0 None
           (Some "started") Hc Hid).
Defined.

Example unknown_instance_on_file_backend :
  update_node_instance "ghost" 0 None None example_file
  = Raise (KeyError "ghost") example_file ∧
  get_node_instance "ghost" example_file
  = Raise (KeyError "ghost") example_file.
Proof. vm_compute. done. Qed.

(** ** The two backends *)

Lemma run_call_contract (s : storage) c :
  consistent s → run_call c s = contract s c.
Proof.
  intros Hc. destruct c as [id| |id v rp st]; unfold run_call, contract.
  - destruct (contents s !! id) as [i|] eqn:Hid.
    + by rewrite (bind_return _ _ s i s)
        by by apply get_node_instance_stored.
    + apply bind_raise. by apply get_node_instance_unknown.
  - by rewrite (bind_return _ _ s _ s) by by apply get_node_instances_all.
  - destruct (contents s !! id) as [i|] eqn:Hid.
    + destruct (bool_decide (st = None) && negb (bool_decide (v = ni_version i)))
        eqn:Hstale.
      * apply andb_true_iff in Hstale as [Hst Hv].
        apply bool_decide_eq_true in Hst as ->.
        apply negb_true_iff, bool_decide_eq_false in Hv.
        apply bind_raise. by apply update_stale.
      * rewrite (bind_return _ _ s tt
                   (with_contents (<[id := updated rp st i]> (contents s)) s));
          [done|].
        apply update_accepted; [done..|].
        apply andb_false_iff in Hstale as [Hst|Hv].
        -- left. apply bool_decide_eq_false in Hst. by destruct st.
        -- right. by apply negb_false_iff, bool_decide_eq_true in Hv.
    + apply bind_raise. by apply update_unknown.
Qed.

Lemma consistent_contract (s : storage) c :
  consistent s → consistent (final (contract s c)).
Proof.
  intros Hc. destruct c as [id| |id v rp st]; simpl.
  - by destruct (contents s !! id).
  - done.
  - destruct (contents s !! id) as [i|] eqn:Hid; [|done].
    destruct (_ && _); [done|]. by apply consistent_update.
Qed.

(** A memory store and a file store built from the same instances, the
    file store on a directory that starts empty, hold the same instances. *)
Lemma constructors_agree name root nodes insts dir clear d :
  starts_empty clear d →
  contents (MemoryStore (InMemoryStorage.__init__ name root nodes insts))
  = contents (FileStore (FileStorage.__init__ name root nodes insts dir
                           clear d)).
Proof.
  intros Hd. simpl. unfold file_contents.
  destruct (file_init_empty name root nodes insts dir clear d Hd) as [-> _].
  done.
Qed.

(** Stores that hold the same instances answer every call alike, up to
    the exception a read of an unknown id raises, and hold the same
    instances afterwards. *)
Lemma run_call_agree (s1 s2 : storage) c :
  consistent s1 → consistent s2 → contents s1 = contents s2 →
  match run_call c s1, run_call c s2 with
  | Return a1 s1', Return a2 s2' =>
      a1 = a2 ∧ consistent s1' ∧ consistent s2' ∧ contents s1' = contents s2'
  | Raise e1 s1', Raise e2 s2' =>
      store_error_of e1 = store_error_of e2 ∧ s1' = s1 ∧ s2' = s2 ∧
      ((∀ id, c = GetNodeInstance id → is_Some (contents s1 !! id)) → e1 = e2)
  | _, _ => False
  end.
Proof.
  intros Hc1 Hc2 Heq.
  pose proof (consistent_contract s1 c Hc1) as Hf1.
  pose proof (consistent_contract s2 c Hc2) as Hf2.
  rewrite !run_call_contract by done.
  destruct c as [id| |id v rp st]; simpl in *; rewrite <- Heq in *.
  - destruct (contents s1 !! id) as [i|] eqn:Hid; [done|].
    split_and!; try done.
    + by destruct s1, s2.
    + intros H. destruct (H id eq_refl) as [? ?]. congruence.
  - done.
  - destruct (contents s1 !! id) as [i|] eqn:Hid; [|done].
    destruct (_ && _); [done|].
    split_and!; try done. by rewrite !contents_with_contents.
Qed.

Lemma run_calls_agree cs (s1 s2 : storage) :
  consistent s1 → consistent s2 → contents s1 = contents s2 →
  Forall2 same_result (run_calls cs s1).1 (run_calls cs s2).1 ∧
  contents (run_calls cs s1).2 = contents (run_calls cs s2).2.
Proof.
  revert s1 s2. induction cs as [|c cs IH]; intros s1 s2 Hc1 Hc2 Heq; simpl.
  { by split; [constructor|]. }
  pose proof (run_call_agree s1 s2 c Hc1 Hc2 Heq) as H.
  destruct (run_call c s1) as [e1 s1'|a1 s1'],
           (run_call c s2) as [e2 s2'|a2 s2']; try done.
  - destruct H as (He & -> & -> & _).
    destruct (IH s1 s2 Hc1 Hc2 Heq) as [Hrs Hcs].
    destruct (run_calls cs s1), (run_calls cs s2); simpl in *.
    split; [|done]. by constructor.
  - destruct H as (-> & Hc1' & Hc2' & Heq').
    destruct (IH s1' s2' Hc1' Hc2' Heq') as [Hrs Hcs].
    destruct (run_calls cs s1'), (run_calls cs s2'); simpl in *.
    split; [|done]. by constructor.
Qed.

(** An accepted update followed by a read of the same id returns, on
    either backend, the instance with what was written. *)
Lemma read_after_update (s s' : storage) id i v rp st :
  consistent s → contents s !! id = Some i →
  update_node_instance id v rp st s = Return tt s' →
  get_node_instance id s' = Return (updated rp st i) s'.
Proof.
  intros Hc Hid Hu.
  pose proof (run_call_contract s (UpdateNodeInstance id v rp st) Hc) as H.
  unfold run_call in H. rewrite (bind_return _ _ s tt s') in H by done.
  simpl in H. rewrite Hid in H.
  destruct (_ && _); [done|]. unfold ret in H. injection H as ->.
  apply get_node_instance_stored.
  - by apply consistent_update.
  - rewrite contents_with_contents. apply lookup_insert_eq.
Qed.

(** C4. The backends are told apart by a read of an id neither holds: built
    from the same instances, the memory backend raises the [RuntimeError]
    of [_get_node_instance], the file backend the [KeyError] of its lock
    table. *)
Theorem backends_differ_on_unknown_instance :
  contents example_memory = contents example_file ∧
  get_node_instance "ghost" example_memory
  = Raise (RuntimeError "Instance ghost does not exist") example_memory ∧
  get_node_instance "ghost" example_file
  = Raise (KeyError "ghost") example_file ∧
  RuntimeError "Instance ghost does not exist" ≠ KeyError "ghost".
Proof. split_and!; [by vm_compute..|done]. Qed.

(** ** Workflow parameters *)

Section merge.
Context (workflow : Workflow) (workflow_name : string).
Context (parameters : option (gmap string value)).
Local Abbreviation wp := (default ∅ (wf_parameters workflow)).
Local Abbreviation ep := (default ∅ parameters).

Lemma merge_loop :
  let loop := map_fold (merge_step ep) (∅, ∅) wp in
  (∀ n, n ∈ loop.1 ↔ missing_mandatory wp ep n) ∧
  (∀ n, loop.2 !! n
        = match wp !! n with
          | Some param =>
              match p_default param with
              | None => ep !! n
              | Some d => Some (default d (ep !! n))
              end
          | None => None
          end).
Proof.
  cbv zeta. unfold missing_mandatory.
  generalize wp. intros m.
  apply (map_fold_weak_ind
           (λ (r : gset string * gmap string value) m,
              (∀ n, n ∈ r.1 ↔
                    ∃ param, m !! n = Some param ∧ p_default param = None ∧
                             ep !! n = None) ∧
              (∀ n, r.2 !! n
                    = match m !! n with
                      | Some param =>
                          match p_default param with
                          | None => ep !! n
                          | Some d => Some (default d (ep !! n))
                          end
                      | None => None
                      end))); clear m.
  - split; intros n.
    + split; [by intros ?%not_elem_of_empty|].
      intros (p & Hp & _). by rewrite lookup_empty in Hp.
    + by rewrite !lookup_empty.
  - intros i x m r Hi [IH1 IH2]. unfold merge_step.
    destruct (p_default x) as [d|] eqn:Hx; simpl;
      [|destruct (ep !! i) as [v|] eqn:Hv; simpl]; split; intros n.
    + rewrite IH1. destruct (decide (i = n)) as [->|Hne].
      * rewrite lookup_insert_eq. split.
        -- intros (p & Hp & _). congruence.
        -- intros (p & [= <-] & ? & _). congruence.
      * by rewrite lookup_insert_ne.
    + destruct (decide (i = n)) as [->|Hne].
      * by rewrite !lookup_insert_eq, Hx.
      * by rewrite !lookup_insert_ne.
    + rewrite IH1. destruct (decide (i = n)) as [->|Hne].
      * rewrite lookup_insert_eq. split.
        -- intros (p & Hp & _). congruence.
        -- intros (p & [= <-] & ? & ?). congruence.
      * by rewrite lookup_insert_ne.
    + destruct (decide (i = n)) as [->|Hne].
      * by rewrite !lookup_insert_eq, Hx.
      * by rewrite !lookup_insert_ne.
    + rewrite elem_of_union, elem_of_singleton, IH1.
      destruct (decide (i = n)) as [->|Hne].
      * rewrite lookup_insert_eq. split; [|by left]. intros _. by exists x.
      * rewrite lookup_insert_ne by done. split; [|by right].
        intros [?|?]; [congruence|done].
    + rewrite IH2. destruct (decide (i = n)) as [->|Hne].
      * by rewrite lookup_insert_eq, Hi, Hx, Hv.
      * by rewrite lookup_insert_ne.
Qed.

Lemma merge_missing allow :
  (∃ n, missing_mandatory wp ep n) →
  ∃ names,
    _merge_and_validate_execution_parameters workflow workflow_name parameters
      allow
    = inl (ValueError (missing_message workflow_name names)) ∧
    NoDup names ∧ ∀ n, n ∈ names ↔ missing_mandatory wp ep n.
Proof.
  intros [n Hn]. destruct merge_loop as [Hmiss _].
  unfold _merge_and_validate_execution_parameters. fold wp ep.
  set (loop := map_fold (merge_step ep) (∅, ∅) wp) in *.
  exists (elements loop.1). split_and!.
  - rewrite bool_decide_true; [done|].
    intros Hempty. apply Hmiss in Hn. rewrite Hempty in Hn.
    by apply not_elem_of_empty in Hn.
  - apply NoDup_elements.
  - intros n'. by rewrite elem_of_elements.
Qed.

Lemma custom_parameters_lookup n v :
  filter (λ kv : string * value, wp !! kv.1 = None) ep !! n = Some v ↔
  wp !! n = None ∧ ep !! n = Some v.
Proof. rewrite map_lookup_filter_Some. simpl. tauto. Qed.

Lemma merge_undeclared :
  (∀ n, ¬ missing_mandatory wp ep n) → (∃ n, undeclared wp ep n) →
  ∃ names,
    _merge_and_validate_execution_parameters workflow workflow_name parameters
      false
    = inl (ValueError (undeclared_message workflow_name names)) ∧
    NoDup names ∧ ∀ n, n ∈ names ↔ undeclared wp ep n.
Proof.
  intros Hnone [n [Hn [v Hv]]]. destruct merge_loop as [Hmiss _].
  unfold _merge_and_validate_execution_parameters. fold wp ep.
  set (loop := map_fold (merge_step ep) (∅, ∅) wp) in *.
  set (custom := filter (λ kv : string * value, wp !! kv.1 = None) ep).
  exists (keys custom). split_and!.
  - rewrite bool_decide_false; last first.
    { intros Hne. apply Hne. apply set_eq. intros n'.
      rewrite Hmiss. split; [by intros ?%Hnone|].
      by intros ?%not_elem_of_empty. }
    simpl. rewrite bool_decide_true; [done|].
    intros Hempty.
    assert (custom !! n = Some v) as Hc by by apply custom_parameters_lookup.
    by rewrite Hempty, lookup_empty in Hc.
  - apply NoDup_fst_map_to_list.
  - intros n'. unfold keys, undeclared.
    rewrite list_elem_of_fmap. split.
    + intros ([k x] & -> & Hin). simpl.
      apply elem_of_map_to_list, custom_parameters_lookup in Hin as [? ?].
      eauto.
    + intros [Hw [x Hx]]. exists (n', x). split; [done|].
      by apply elem_of_map_to_list, custom_parameters_lookup.
Qed.

Lemma merge_accepted allow :
  (∀ n, ¬ missing_mandatory wp ep n) →
  allow = true ∨ (∀ n, ¬ undeclared wp ep n) →
  ∃ merged,
    _merge_and_validate_execution_parameters workflow workflow_name parameters
      allow
    = inr merged ∧ ∀ n, merged !! n = merged_value wp ep n.
Proof.
  intros Hnone Hallow. destruct merge_loop as [Hmiss Hmerged].
  unfold _merge_and_validate_execution_parameters. fold wp ep.
  set (loop := map_fold (merge_step ep) (∅, ∅) wp) in *.
  set (custom := filter (λ kv : string * value, wp !! kv.1 = None) ep).
  exists (custom ∪ loop.2). split.
  - rewrite bool_decide_false; last first.
    { intros Hne. apply Hne. apply set_eq. intros n'.
      rewrite Hmiss. split; [by intros ?%Hnone|].
      by intros ?%not_elem_of_empty. }
    destruct Hallow as [->|Hno]; [done|].
    rewrite (bool_decide_false (custom ≠ ∅)); [by rewrite andb_false_r|].
    intros Hne. apply Hne. apply map_empty. intros n'.
    destruct (custom !! n') as [v|] eqn:Hc; [|done].
    apply custom_parameters_lookup in Hc as [? ?].
    destruct (Hno n'). split; eauto.
  - intros n. unfold merged_value. rewrite lookup_union, Hmerged.
    destruct (wp !! n) as [p|] eqn:Hw.
    + assert (custom !! n = None) as ->.
      { destruct (custom !! n) as [v|] eqn:Hc; [|done].
        apply custom_parameters_lookup in Hc as [? ?]. congruence. }
      rewrite (left_id_L None _).
      destruct (p_default p) as [d|] eqn:Hp.
      * by destruct (ep !! n).
      * destruct (ep !! n) as [v|] eqn:He; [done|].
        destruct (Hnone n). by exists p.
    + rewrite (right_id_L None _).
      destruct (ep !! n) as [v|] eqn:He.
      * by apply custom_parameters_lookup.
      * destruct (custom !! n) as [v|] eqn:Hc; [|done].
        apply custom_parameters_lookup in Hc as [? ?]. congruence.
Qed.
End merge.

(** A criterion that computes: every parameter without a default is given. *)
Lemma no_missing_mandatory (wp : gmap string WorkflowParameter)
    (ep : gmap string value) :
  map_Forall (λ n param, is_Some (p_default param) ∨ is_Some (ep !! n)) wp →
  ∀ n, ¬ missing_mandatory wp ep n.
Proof.
  intros H n (param & Hp & Hd & He).
  destruct (H n param Hp) as [[? ?]|[? ?]]; congruence.
Qed.

Lemma append_inj_l (s a b : string) : s +:+ a = s +:+ b → a = b.
Proof. induction s as [|c s IH]; simpl; [done|]. intros [= H]. by apply IH. Qed.

Lemma missing_message_not_undeclared workflow_name names names' :
  missing_message workflow_name names
  ≠ undeclared_message workflow_name names'.
Proof.
  unfold missing_message, undeclared_message. intros H.
  do 4 apply append_inj_l in H. discriminate H.
Qed.

Lemma append_assoc (a b c : string) : (a +:+ b) +:+ c = a +:+ b +:+ c.
Proof.
  induction a as [|x a IH]; [done|].
  change (String x ((a +:+ b) +:+ c) = String x (a +:+ b +:+ c)).
  by f_equal.
Qed.

Lemma append_empty_r (a : string) : a +:+ EmptyString = a.
Proof.
  induction a as [|x a IH]; [done|].
  change (String x (a +:+ EmptyString) = String x a). by f_equal.
Qed.



Lemma occurs_in_append name before message after :
  occurs_in name message → occurs_in name (before +:+ message +:+ after).
Proof.
  intros (a & b & ->). exists (before +:+ a), (b +:+ after).
  by rewrite !append_assoc.
Qed.

(** Every string of a list occurs in the list joined by a separator. *)
Lemma occurs_in_concat sep names name :
  name ∈ names → occurs_in name (String.concat sep names).
Proof.
  induction names as [|x names IH]; intros Hin;
    [by apply not_elem_of_nil in Hin|].
  apply elem_of_cons in Hin as [->|Hin].
  - exists EmptyString. destruct names as [|y names]; simpl.
    + exists EmptyString. by rewrite append_empty_r.
    + by eexists.
  - destruct names as [|y names]; [by apply not_elem_of_nil in Hin|].
    destruct (IH Hin) as (a & b & Hab).
    change (String.concat sep (x :: y :: names))
      with (x +:+ sep +:+ String.concat sep (y :: names)).
    rewrite Hab. exists (x +:+ sep +:+ a), b. by rewrite !append_assoc.
Qed.

Section execute.
Context {callable : Type} (import_module : string → result (module callable)).
Context (self : Environment) (workflow_name : string) (workflow : Workflow).
Context (workflow_method : callable).
Context (parameters : option (gmap string value)).
Context (task_retries task_retry_interval task_thread_pool_size : Z).
Context (execution_id : string).

(** C6. When declared parameters without a default are absent from the
    caller's parameters, [execute] raises one [ValueError] and makes no
    call of the workflow method.  The message is the text
    [Workflow "<name>" must be provided with the following parameters to
    execute: ] followed by the missing names joined by commas: every
    missing name, each once, and nothing else, so that each of them occurs
    in the message. *)
Theorem missing_parameters_fail_execute allow_custom_parameters :
  plan_workflows (env_plan self) !! workflow_name = Some workflow →
  _get_module_method import_module (wf_operation workflow) "workflow" ""
  = inr workflow_method →
  (∃ n, missing_mandatory (default ∅ (wf_parameters workflow))
          (default ∅ parameters) n) →
  ∃ names message,
    execute import_module self workflow_name parameters allow_custom_parameters
      task_retries task_retry_interval task_thread_pool_size execution_id
    = inl (ValueError message) ∧
    message
    = "Workflow " +:+ String (Ascii.ascii_of_nat 34) EmptyString +:+
      workflow_name +:+ String (Ascii.ascii_of_nat 34) EmptyString +:+
      " must be provided with the following parameters to execute: " +:+
      String.concat "," names ∧
    NoDup names ∧
    (∀ n, n ∈ names ↔
          missing_mandatory (default ∅ (wf_parameters workflow))
            (default ∅ parameters) n) ∧
    ∀ n, missing_mandatory (default ∅ (wf_parameters workflow))
           (default ∅ parameters) n →
         occurs_in n message.
Proof.
  intros Hwf Hmethod Hmissing.
  destruct (merge_missing workflow workflow_name parameters
              allow_custom_parameters Hmissing) as (names & Hm & Hnd & Hin).
  exists names. eexists. split_and!; [|reflexivity|done|done|].
  - unfold execute. rewrite Hwf, Hmethod, Hm. reflexivity.
  - intros n Hn. apply Hin in Hn.
    rewrite <- !append_assoc.
    rewrite <- (append_empty_r (String.concat "," names)).
    apply occurs_in_append. by apply occurs_in_concat.
Qed.

(** C7. With every mandatory parameter given: when custom parameters are
    not allowed and the caller gives undeclared ones, [execute] raises a
    [ValueError] whose message is the text
    [Workflow "<name>" does not have the following parameters declared: ]
    followed by the undeclared names joined by commas and by
    [. Remove these parameters or use the flag for allowing custom
    parameters]: every undeclared name, each once, and nothing else, so
    that each of them occurs in the message; when they are allowed, the
    workflow method is called with the merged parameters, in which an
    undeclared name has the caller's value and a declared one the caller's
    value when given and its default otherwise. *)
Theorem custom_parameters_rejected_or_passed :
  plan_workflows (env_plan self) !! workflow_name = Some workflow →
  _get_module_method import_module (wf_operation workflow) "workflow" ""
  = inr workflow_method →
  (∀ n, ¬ missing_mandatory (default ∅ (wf_parameters workflow))
            (default ∅ parameters) n) →
  ((∃ n, undeclared (default ∅ (wf_parameters workflow))
           (default ∅ parameters) n) →
   ∃ names message,
     execute import_module self workflow_name parameters false
       task_retries task_retry_interval task_thread_pool_size execution_id
     = inl (ValueError message) ∧
     message
     = "Workflow " +:+ String (Ascii.ascii_of_nat 34) EmptyString +:+
       workflow_name +:+ String (Ascii.ascii_of_nat 34) EmptyString +:+
       " does not have the following parameters declared: " +:+
       String.concat "," names +:+
       ". Remove these parameters or use the flag for allowing custom parameters" ∧
     NoDup names ∧
     (∀ n, n ∈ names ↔
           undeclared (default ∅ (wf_parameters workflow))
             (default ∅ parameters) n) ∧
     ∀ n, undeclared (default ∅ (wf_parameters workflow))
            (default ∅ parameters) n →
          occurs_in n message) ∧
  (∃ call,
     execute import_module self workflow_name parameters true
       task_retries task_retry_interval task_thread_pool_size execution_id
     = inr call ∧
     inv_method call = workflow_method ∧
     (∀ n, inv_parameters call !! n
           = merged_value (default ∅ (wf_parameters workflow))
               (default ∅ parameters) n) ∧
     (∀ n, undeclared (default ∅ (wf_parameters workflow))
             (default ∅ parameters) n →
           inv_parameters call !! n = default ∅ parameters !! n)).
Proof.
  intros Hwf Hmethod Hnone. split.
  - intros Hundeclared.
    destruct (merge_undeclared workflow workflow_name parameters Hnone
                Hundeclared) as (names & Hm & Hnd & Hin).
    exists names. eexists. split_and!; [|reflexivity|done|done|].
    + unfold execute. rewrite Hwf, Hmethod, Hm. reflexivity.
    + intros n Hn. apply Hin in Hn.
      rewrite <- !append_assoc. rewrite append_assoc.
      apply occurs_in_append. by apply occurs_in_concat.
  - destruct (merge_accepted workflow workflow_name parameters true Hnone)
      as (merged & Hm & Hval); [by left|].
    unfold execute. rewrite Hwf, Hmethod, Hm.
    eexists. split; [done|]. simpl. split_and!; [done|done|].
    intros n [Hn _]. rewrite Hval. unfold merged_value. by rewrite Hn.
Qed.

(** C10. When a call both omits a mandatory parameter and gives an
    undeclared one with custom parameters not allowed, the error raised is
    the one listing the missing mandatory names; it is not the error for
    undeclared parameters, whatever names that one would list. *)
Theorem missing_parameters_take_precedence :
  plan_workflows (env_plan self) !! workflow_name = Some workflow →
  _get_module_method import_module (wf_operation workflow) "workflow" ""
  = inr workflow_method →
  (∃ n, missing_mandatory (default ∅ (wf_parameters workflow))
          (default ∅ parameters) n) →
  (∃ n, undeclared (default ∅ (wf_parameters workflow))
          (default ∅ parameters) n) →
  ∃ names,
    execute import_module self workflow_name parameters false
      task_retries task_retry_interval task_thread_pool_size execution_id
    = inl (ValueError (missing_message workflow_name names)) ∧
    _merge_and_validate_execution_parameters workflow workflow_name
      parameters false
    = inl (ValueError (missing_message workflow_name names)) ∧
    (∀ n, n ∈ names ↔
          missing_mandatory (default ∅ (wf_parameters workflow))
            (default ∅ parameters) n) ∧
    ∀ names',
      execute import_module self workflow_name parameters false
        task_retries task_retry_interval task_thread_pool_size execution_id
      ≠ inl (ValueError (undeclared_message workflow_name names')).
Proof.
  intros Hwf Hmethod Hmissing _.
  destruct (merge_missing workflow workflow_name parameters false Hmissing)
    as (names & Hm & Hnd & Hin).
  exists names.
  assert (execute import_module self workflow_name parameters false
            task_retries task_retry_interval task_thread_pool_size execution_id
          = inl (ValueError (missing_message workflow_name names))) as He.
  { unfold execute. by rewrite Hwf, Hmethod, Hm. }
  split_and!; [done..|].
  intros names'. rewrite He. intros H.
  apply (missing_message_not_undeclared workflow_name names names').
  congruence.
Qed.
End execute.

Lemma missing_parameters_fail_execute_witness :
  let parameters : option (gmap string value) :=
    Some {[ "delta" := VInt 2; "colour" := VStr "red" ]} in
  plan_workflows (env_plan example_environment) !! "scale"
  = Some example_workflow ∧
  _get_module_method example_import_module (wf_operation example_workflow)
    "workflow" "" = inr "<function scale>" ∧
  (∃ n, missing_mandatory (default ∅ (wf_parameters example_workflow))
          (default ∅ parameters) n) ∧
  ∃ names message,
    execute example_import_module example_environment "scale" parameters true
      (-1) 30 1 "4f0c"
    = inl (ValueError message) ∧
    message
    = "Workflow " +:+ String (Ascii.ascii_of_nat 34) EmptyString +:+
      "scale" +:+ String (Ascii.ascii_of_nat 34) EmptyString +:+
      " must be provided with the following parameters to execute: " +:+
      String.concat "," names ∧
    NoDup names ∧
    (∀ n, n ∈ names ↔
          missing_mandatory (default ∅ (wf_parameters example_workflow))
            (default ∅ parameters) n) ∧
    ∀ n, missing_mandatory (default ∅ (wf_parameters example_workflow))
           (default ∅ parameters) n →
         occurs_in n message.
Proof.
  intros parameters.
  assert (plan_workflows (env_plan example_environment) !! "scale"
          = Some example_workflow) as Hwf by (vm_compute; reflexivity).
  assert (_get_module_method example_import_module (wf_operation example_workflow)
            "workflow" "" = inr "<function scale>") as Hmethod
    by (vm_compute; reflexivity).
  assert (∃ n, missing_mandatory (default ∅ (wf_parameters example_workflow))
                 (default ∅ parameters) n) as Hmissing.
  { exists "node_id", {| p_default := None |}.
    split; [vm_compute; reflexivity|].
    split; [reflexivity|vm_compute; reflexivity]. }
  split; [exact Hwf|]. split; [exact Hmethod|]. split; [exact Hmissing|].
  exact (missing_parameters_fail_execute example_import_module example_environment
           "scale" example_workflow "<function scale>" parameters (-1) 30 1
           "4f0c" true Hwf Hmethod Hmissing).
Defined.

(** The message of that call names both missing parameters, in one
    order or the other. *)
Example missing_parameters_message :
  ∃ names,
    names ≡ₚ ["node_id"; "reason"] ∧
    execute example_import_module example_environment "scale"
      (Some {[ "delta" := VInt 2; "colour" := VStr "red" ]}) true (-1) 30 1
      "4f0c"
    = inl (ValueError
             ("Workflow " +:+ dquote +:+ "scale" +:+ dquote +:+
              " must be provided with the following parameters to execute: " +:+
              String.concat "," names)).
Proof. exists ["node_id"; "reason"]. split; [done|]. vm_compute. reflexivity. Qed.

Lemma custom_parameters_rejected_or_passed_witness :
  let parameters : option (gmap string value) :=
    Some {[ "node_id" := VStr "web_server"; "reason" := VStr "load";
            "colour" := VStr "red" ]} in
  let wp := default ∅ (wf_parameters example_workflow) in
  let ep := default ∅ parameters in
  plan_workflows (env_plan example_environment) !! "scale"
  = Some example_workflow ∧
  _get_module_method example_import_module (wf_operation example_workflow)
    "workflow" "" = inr "<function scale>" ∧
  (∀ n, ¬ missing_mandatory wp ep n) ∧
  ((∃ n, undeclared wp ep n) →
   ∃ names message,
     execute example_import_module example_environment "scale" parameters false
       (-1) 30 1 "4f0c"
     = inl (ValueError message) ∧
     message
     = "Workflow " +:+ String (Ascii.ascii_of_nat 34) EmptyString +:+
       "scale" +:+ String (Ascii.ascii_of_nat 34) EmptyString +:+
       " does not have the following parameters declared: " +:+
       String.concat "," names +:+
       ". Remove these parameters or use the flag for allowing custom parameters" ∧
     NoDup names ∧ (∀ n, n ∈ names ↔ undeclared wp ep n) ∧
     ∀ n, undeclared wp ep n → occurs_in n message) ∧
  (∃ call,
     execute example_import_module example_environment "scale" parameters true
       (-1) 30 1 "4f0c" = inr call ∧
     inv_method call = "<function scale>" ∧
     (∀ n, inv_parameters call !! n = merged_value wp ep n) ∧
     (∀ n, undeclared wp ep n → inv_parameters call !! n = ep !! n)).
Proof.
  intros parameters wp ep.
  assert (plan_workflows (env_plan example_environment) !! "scale"
          = Some example_workflow) as Hwf by (vm_compute; reflexivity).
  assert (_get_module_method example_import_module (wf_operation example_workflow)
            "workflow" "" = inr "<function scale>") as Hmethod
    by (vm_compute; reflexivity).
  assert (∀ n, ¬ missing_mandatory wp ep n) as Hnone.
  { apply no_missing_mandatory. apply (bool_decide_unpack _).
    vm_compute. exact I. }
  split; [exact Hwf|]. split; [exact Hmethod|]. split; [exact Hnone|].
  exact (custom_parameters_rejected_or_passed example_import_module
           example_environment "scale" example_workflow "<function scale>"
           parameters (-1) 30 1 "4f0c" Hwf Hmethod Hnone).
Defined.

(** The same call, refused and accepted. *)
Example custom_parameter_refused :
  execute example_import_module example_environment "scale"
    (Some {[ "node_id" := VStr "web_server"; "reason" := VStr "load";
             "colour" := VStr "red" ]}) false (-1) 30 1 "4f0c"
  = inl (ValueError
           ("Workflow " +:+ dquote +:+ "scale" +:+ dquote +:+
            " does not have the following parameters declared: colour" +:+
            ". Remove these parameters or use the flag for allowing " +:+
            "custom parameters")).
Proof. vm_compute. reflexivity. Qed.

Example custom_parameter_passed :
  inv_parameters <$>
    (let r := execute example_import_module example_environment "scale"
                (Some {[ "node_id" := VStr "web_server";
                         "reason" := VStr "load";
                         "colour" := VStr "red" ]}) true (-1) 30 1 "4f0c" in
     match r with inl _ => None | inr call => Some call end)
  = Some {[ "node_id" := VStr "web_server"; "reason" := VStr "load";
            "colour" := VStr "red"; "delta" := VInt 1 ]}.
Proof. vm_compute. reflexivity. Qed.

Lemma missing_parameters_take_precedence_witness :
  let parameters : option (gmap string value) :=
    Some {[ "node_id" := VStr "web_server"; "colour" := VStr "red" ]} in
  let wp := default ∅ (wf_parameters example_workflow) in
  let ep := default ∅ parameters in
  plan_workflows (env_plan example_environment) !! "scale"
  = Some example_workflow ∧
  _get_module_method example_import_module (wf_operation example_workflow)
    "workflow" "" = inr "<function scale>" ∧
  (∃ n, missing_mandatory wp ep n) ∧
  (∃ n, undeclared wp ep n) ∧
  ∃ names,
    execute example_import_module example_environment "scale" parameters false
      (-1) 30 1 "4f0c"
    = inl (ValueError (missing_message "scale" names)) ∧
    _merge_and_validate_execution_parameters example_workflow "scale"
      parameters false
    = inl (ValueError (missing_message "scale" names)) ∧
    (∀ n, n ∈ names ↔ missing_mandatory wp ep n) ∧
    ∀ names',
      execute example_import_module example_environment "scale" parameters false
        (-1) 30 1 "4f0c"
      ≠ inl (ValueError (undeclared_message "scale" names')).
Proof.
  intros parameters wp ep.
  assert (plan_workflows (env_plan example_environment) !! "scale"
          = Some example_workflow) as Hwf by (vm_compute; reflexivity).
  assert (_get_module_method example_import_module (wf_operation example_workflow)
            "workflow" "" = inr "<function scale>") as Hmethod
    by (vm_compute; reflexivity).
  assert (∃ n, missing_mandatory wp ep n) as Hmissing.
  { exists "reason", {| p_default := None |}.
    split; [vm_compute; reflexivity|].
    split; [reflexivity|vm_compute; reflexivity]. }
  assert (∃ n, undeclared wp ep n) as Hundeclared.
  { exists "colour". split; [vm_compute; reflexivity|].
    exists (VStr "red"). vm_compute. reflexivity. }
  split; [exact Hwf|]. split; [exact Hmethod|]. split; [exact Hmissing|].
  split; [exact Hundeclared|].
  exact (missing_parameters_take_precedence example_import_module
           example_environment "scale" example_workflow "<function scale>"
           parameters (-1) 30 1 "4f0c" Hwf Hmethod Hmissing Hundeclared).
Defined.

(** ** Outputs *)

Section outputs_facts.
Context (parse : value → parsed) {S : Type} `{!Store S}.
Context (s : S) (instances : list NodeInstance).
Hypothesis Hinstances : get_node_instances s = Return instances s.

Lemma runtime_property_value a i :
  runtime_property a i
  = match ni_runtime_properties i with
    | Some properties => default VNone (properties !! a)
    | None => VNone
    end.
Proof.
  unfold runtime_property. by destruct (ni_runtime_properties i).
Qed.

Lemma handler_returns k v (st : scan_state) :
  st.1 = None ∨ st.1 = Some instances →
  ∃ st',
    handler parse k v st s = Return st' s ∧
    (st'.1 = None ∨ st'.1 = Some instances) ∧
    st'.2 = match parse v with
            | GetAttribute n a =>
                <[k := VList (attribute_values instances n a)]> st.2
            | NotGetAttribute => st.2
            end.
Proof using Hinstances.
  intros Hctx. unfold handler.
  destruct (parse v) as [n a|]; [|by exists st].
  exists (Some instances, <[k := VList (attribute_values instances n a)]> st.2).
  split_and!; [|by right|done].
  assert (attribute_values instances n a
          = runtime_property a <$>
              filter (λ instance, ni_node_id instance = n) instances) as ->.
  { unfold attribute_values. apply list_fmap_ext. intros _ i _.
    by rewrite runtime_property_value. }
  destruct Hctx as [->| ->].
  - by rewrite (bind_return _ _ s instances s).
  - done.
Qed.

Lemma scan_entries_returns entries (st : scan_state) :
  NoDup entries.*1 → st.1 = None ∨ st.1 = Some instances →
  ∃ st',
    scan_entries parse entries st s = Return st' s ∧
    ∀ k, st'.2 !! k
         = match list_to_map (M := gmap string value) entries !! k with
           | Some v =>
               match parse v with
               | GetAttribute n a =>
                   Some (VList (attribute_values instances n a))
               | NotGetAttribute => st.2 !! k
               end
           | None => st.2 !! k
           end.
Proof using Hinstances.
  revert st. induction entries as [|[k v] entries IH]; intros st Hnd Hctx.
  { exists st. split; [done|]. intros k. simpl. by rewrite lookup_empty. }
  simpl in Hnd. apply NoDup_cons in Hnd as [Hk Hnd].
  destruct (handler_returns k v st Hctx) as (st1 & Hh & Hctx1 & Hd1).
  destruct (IH st1 Hnd Hctx1) as (st' & Hs & Hd').
  exists st'. split.
  { simpl. by rewrite (bind_return _ _ s st1 s). }
  intros k'. rewrite Hd'. simpl.
  destruct (decide (k = k')) as [<-|Hne].
  - rewrite lookup_insert_eq.
    rewrite (not_elem_of_list_to_map_1 _ k) by done.
    rewrite Hd1. destruct (parse v); [|done]. by rewrite lookup_insert_eq.
  - rewrite lookup_insert_ne by done.
    destruct (list_to_map entries !! k') as [v'|]; [destruct (parse v')|];
      try done.
    all: rewrite Hd1; destruct (parse v); [|done]; by rewrite lookup_insert_ne.
Qed.

Lemma outputs_of_returns (plan : Plan) :
  ∃ result,
    outputs_of parse plan s = Return result s ∧
    ∀ k, result !! k
         = match plan_outputs plan !! k with
           | Some v =>
               match parse v with
               | GetAttribute n a =>
                   Some (VList (attribute_values instances n a))
               | NotGetAttribute => Some v
               end
           | None => None
           end.
Proof using Hinstances.
  destruct (scan_entries_returns (map_to_list (plan_outputs plan))
              (None, plan_outputs plan)) as (st' & Hs & Hd).
  { apply NoDup_fst_map_to_list. }
  { by left. }
  exists st'.2. split.
  { unfold outputs_of, scan_properties.
    by rewrite (bind_return _ _ s st' s). }
  intros k. rewrite Hd, list_to_map_to_list. simpl.
  destruct (plan_outputs plan !! k) as [v|] eqn:Hk; [|done].
  by destruct (parse v).
Qed.
End outputs_facts.

(** C8. [outputs] returns a dictionary with the keys of the plan's
    outputs, in which a value that parses as [get_attribute] of a node and
    an attribute is replaced by the list with one entry for each stored
    instance whose node id is that node, the attribute's runtime-property
    value or [None] when the property or the runtime properties are
    missing, and every other value is what the plan has. *)
Theorem outputs_resolve_get_attribute (parse : value → parsed)
    (self : Environment) :
  consistent (env_storage self) →
  ∃ result,
    outputs parse self = inr result ∧
    ∀ k, result !! k
         = match plan_outputs (env_plan self) !! k with
           | Some v =>
               match parse v with
               | GetAttribute node_name attribute_name =>
                   Some (VList (attribute_values
                                  (values (contents (env_storage self)))
                                  node_name attribute_name))
               | NotGetAttribute => Some v
               end
           | None => None
           end.
Proof.
  intros Hc.
  destruct (outputs_of_returns parse (env_storage self)
              (values (contents (env_storage self)))
              (get_node_instances_all _ Hc) (env_plan self))
    as (result & Ho & Hr).
  exists result. split; [|done]. unfold outputs. by rewrite Ho.
Qed.

Lemma outputs_resolve_get_attribute_witness :
  consistent (env_storage example_environment) ∧
  ∃ result,
    outputs example_parse example_environment = inr result ∧
    ∀ k, result !! k
         = match plan_outputs (env_plan example_environment) !! k with
           | Some v =>
               match example_parse v with
               | GetAttribute node_name attribute_name =>
                   Some (VList (attribute_values
                                  (values (contents
                                             (env_storage example_environment)))
                                  node_name attribute_name))
               | NotGetAttribute => Some v
               end
           | None => None
           end.
Proof.
  assert (consistent (env_storage example_environment)) as Hc
    by (vm_compute; reflexivity).
  split; [exact Hc|].
  exact (outputs_resolve_get_attribute example_parse example_environment Hc).
Defined.

(** The example outputs: one entry for each of the two [web_server]
    instances, [None] for the one without runtime properties; the literal
    is kept. *)
Example example_outputs :
  ∃ result,
    outputs example_parse example_environment = inr result ∧
    result !! "port" = Some (VInt 8080) ∧
    ∃ entries,
      result !! "endpoint" = Some (VList entries) ∧
      entries ≡ₚ [VStr "10.0.0.1"; VNone].
Proof.
  eexists. split; [vm_compute; reflexivity|].
  split; [vm_compute; reflexivity|].
  eexists. split; [vm_compute; reflexivity|]. done.
Qed.

(** ** Validation of the operation mappings *)

Lemma for_all_inl {A} (body : A → result unit) xs e :
  for_all body xs = inl e → ∃ x, x ∈ xs ∧ body x = inl e.
Proof.
  induction xs as [|x xs IH]; simpl; [done|].
  destruct (body x) as [e'|[]] eqn:Hx.
  - intros [= <-]. exists x. split; [by left|done].
  - intros H. destruct (IH H) as (x' & Hin & Hb). exists x'.
    split; [by right|done].
Qed.

Lemma for_all_fails {A} (body : A → result unit) xs x e :
  x ∈ xs → body x = inl e → ∃ e', for_all body xs = inl e'.
Proof.
  induction xs as [|y xs IH]; intros Hin Hx; [by apply not_elem_of_nil in Hin|].
  simpl. destruct (body y) as [e'|[]] eqn:Hy; [by eexists|].
  apply elem_of_cons in Hin as [->|Hin]; [congruence|by apply IH].
Qed.

Lemma for_all_inr {A} (body : A → result unit) xs u x :
  for_all body xs = inr u → x ∈ xs → body x = inr tt.
Proof.
  induction xs as [|y xs IH]; intros H Hin; [by apply not_elem_of_nil in Hin|].
  simpl in H. destruct (body y) as [e'|[]] eqn:Hy; [done|].
  apply elem_of_cons in Hin as [->|Hin]; [done|by apply IH].
Qed.

Section validation.
Context {callable : Type} (import_module : string → result (module callable)).

Lemma get_module_method_inl path tpe node_name e :
  _get_module_method import_module path tpe node_name = inl e →
  ¬ resolves import_module path ∧
  e = mapping_error import_module path tpe node_name.
Proof.
  unfold _get_module_method, resolves, mapping_error.
  fold (module_of path) (method_of path).
  destruct (import_module (module_of path)) as [raised|m] eqn:Hm.
  - intros H. split; [by intros (m' & [=] & _)|].
    destruct raised; congruence.
  - destruct (attributes m !! method_of path) as [f|] eqn:Hf; [done|].
    intros [= <-]. split; [|done].
    intros (m' & [= <-] & [? ?]). congruence.
Qed.

Lemma get_module_method_unresolved path tpe node_name :
  ¬ resolves import_module path →
  _get_module_method import_module path tpe node_name
  = inl (mapping_error import_module path tpe node_name).
Proof.
  intros Hn.
  destruct (_get_module_method import_module path tpe node_name) as [e|f] eqn:E.
  - by apply get_module_method_inl in E as [_ ->].
  - destruct Hn. revert E. unfold _get_module_method, resolves.
    fold (module_of path) (method_of path).
    destruct (import_module (module_of path)) as [raised|m];
      [by destruct raised|].
    destruct (attributes m !! method_of path) eqn:Hf; [|done]. eauto.
Qed.

Lemma values_elem_of {A} (m : gmap string A) x :
  x ∈ values m ↔ ∃ k, m !! k = Some x.
Proof.
  unfold values. rewrite list_elem_of_fmap. split.
  - intros ([k y] & -> & Hin). exists k. by apply elem_of_map_to_list.
  - intros [k Hk]. exists (k, x). split; [done|]. by apply elem_of_map_to_list.
Qed.

Lemma scan_inl operations tpe node e :
  scan import_module operations tpe node = inl e →
  ∃ k operation,
    default ∅ operations !! k = Some operation ∧
    _get_module_method import_module (op_operation operation) tpe (n_id node)
    = inl e.
Proof.
  unfold scan. intros H. apply for_all_inl in H as (op & Hin & Hb).
  apply values_elem_of in Hin as [k Hk]. exists k, op. split; [done|].
  by destruct (_get_module_method _ _ _ _); simplify_eq.
Qed.

Lemma scan_fails operations tpe node k operation :
  default ∅ operations !! k = Some operation →
  ¬ resolves import_module (op_operation operation) →
  ∃ e, scan import_module operations tpe node = inl e.
Proof.
  intros Hk Hn. unfold scan.
  apply (for_all_fails _ _ operation
           (mapping_error import_module (op_operation operation) tpe (n_id node))).
  - apply values_elem_of. eauto.
  - by rewrite get_module_method_unresolved.
Qed.

(** The node as [prepare_node] scans it has the descriptors of the node. *)
Lemma prepare_node_inl node e :
  prepare_node import_module node = inl e →
  ∃ tpe operation,
    descriptor_of node tpe operation ∧
    _get_module_method import_module (op_operation operation) tpe (n_id node)
    = inl e.
Proof.
  unfold prepare_node.
  set (node' := match n_relationships node with
                | None => _ | Some _ => node end).
  assert (n_id node' = n_id node) as Hid
    by (unfold node'; by destruct (n_relationships node)).
  assert (n_operations node' = n_operations node) as Hops
    by (unfold node'; by destruct (n_relationships node)).
  assert (default [] (n_relationships node')
          = default [] (n_relationships node)) as Hrels
    by (unfold node'; destruct (n_relationships node) eqn:E; simpl;
        by rewrite ?E).
  rewrite Hops, Hrels.
  destruct (scan import_module (n_operations node) "operations" node') as [e'|[]]
    eqn:Hown.
  - intros [= <-]. apply scan_inl in Hown as (k & op & Hk & Hg).
    exists "operations", op. rewrite <- Hid. split; [|done].
    by apply (own_operation node k).
  - destruct (for_all _ _) as [e'|[]] eqn:Hrel; [|done].
    intros [= <-]. apply for_all_inl in Hrel as (r & Hin & Hb).
    destruct (scan import_module (rel_source_operations r) "source_operations" node')
      as [e''|[]] eqn:Hsrc.
    + simplify_eq. apply scan_inl in Hsrc as (k & op & Hk & Hg).
      exists "source_operations", op. rewrite <- Hid. split; [|done].
      by apply (source_operation node r k).
    + apply scan_inl in Hb as (k & op & Hk & Hg).
      exists "target_operations", op. rewrite <- Hid. split; [|done].
      by apply (target_operation node r k).
Qed.

Lemma prepare_node_fails node tpe operation :
  descriptor_of node tpe operation →
  ¬ resolves import_module (op_operation operation) →
  ∃ e, prepare_node import_module node = inl e.
Proof.
  intros Hd Hn. unfold prepare_node.
  set (node' := match n_relationships node with
                | None => _ | Some _ => node end).
  assert (n_operations node' = n_operations node) as Hops
    by (unfold node'; by destruct (n_relationships node)).
  assert (default [] (n_relationships node')
          = default [] (n_relationships node)) as Hrels
    by (unfold node'; destruct (n_relationships node) eqn:E; simpl;
        by rewrite ?E).
  rewrite Hops, Hrels.
  destruct (scan import_module (n_operations node) "operations" node') as [e'|[]]
    eqn:Hown; [by eexists|].
  destruct (for_all _ _) as [e'|[]] eqn:Hrel; [by eexists|].
  exfalso. destruct Hd as [k op Hk|r k op Hin Hk|r k op Hin Hk].
  - destruct (scan_fails (n_operations node) "operations" node' k op Hk Hn).
    congruence.
  - destruct (scan_fails (rel_source_operations r) "source_operations" node'
                k op Hk Hn) as [e Hs].
    pose proof (for_all_inr _ _ _ r Hrel Hin) as Hr. simpl in Hr.
    by rewrite Hs in Hr.
  - destruct (scan_fails (rel_target_operations r) "target_operations" node'
                k op Hk Hn) as [e Hs].
    pose proof (for_all_inr _ _ _ r Hrel Hin) as Hr. simpl in Hr.
    rewrite Hs in Hr. by destruct (scan import_module _ "source_operations" node').
Qed.

Lemma prepare_nodes_inl nodes e :
  prepare_nodes import_module nodes = inl e →
  ∃ node, node ∈ nodes ∧ prepare_node import_module node = inl e.
Proof.
  induction nodes as [|node nodes IH]; simpl; [done|].
  destruct (prepare_node import_module node) as [e'|node'] eqn:Hn.
  - intros [= <-]. exists node. split; [by left|done].
  - destruct (prepare_nodes import_module nodes) as [e'|nodes']; [|done].
    intros [= <-]. destruct (IH eq_refl) as (n & Hin & Hp).
    exists n. split; [by right|done].
Qed.

Lemma prepare_nodes_fails nodes node e :
  node ∈ nodes → prepare_node import_module node = inl e →
  ∃ e', prepare_nodes import_module nodes = inl e'.
Proof.
  induction nodes as [|n nodes IH]; intros Hin Hn;
    [by apply not_elem_of_nil in Hin|].
  simpl. destruct (prepare_node import_module n) as [e'|n'] eqn:Hp; [by eexists|].
  apply elem_of_cons in Hin as [->|Hin]; [congruence|].
  destruct (IH Hin Hn) as [e' ->]. by eexists.
Qed.

End validation.


(** The error of the example: the module, the node and the kind. *)
Example example_mapping_error :
  __init__ example_import_module true example_broken_plan "/blueprint" "local"
    None "/tmp/cloudify-workflows" false Missing
  = inl (ImportError
           ("mapping error: No module named no_such_plugin.tasks " +:+
            "[node=web_server, type=operations]")).
Proof. vm_compute. reflexivity. Qed.


(** A path is its module and its attribute joined by a dot. *)
Example example_path_parts :
  module_of "cloudify.plugins.workflows.scale" = "cloudify.plugins.workflows" ∧
  method_of "cloudify.plugins.workflows.scale" = "scale".
Proof. vm_compute. done. Qed.

(** * Further properties *)

(** ** The shape of a store *)

Lemma with_contents_locks m (s : storage) :
  _locks (with_contents m s) = _locks s.
Proof. by destruct s. Qed.

Lemma with_contents_nodes m (s : storage) :
  nodes_of (with_contents m s) = nodes_of s.
Proof. by destruct s. Qed.

Lemma run_call_shape (s : storage) c :
  consistent s →
  let s' := final (run_call c s) in
  consistent s' ∧ dom (contents s') = dom (contents s) ∧
  _locks s' = _locks s ∧ nodes_of s' = nodes_of s.
Proof.
  intros Hc. cbv zeta.
  destruct (run_call_cases s c Hc)
    as [[e He]|[(a & Ha & _)|(id & v & rp & st & i & -> & Hid & Hu)]].
  - by rewrite He.
  - by rewrite Ha.
  - rewrite Hu. simpl. split_and!.
    + by apply consistent_update.
    + rewrite contents_with_contents. by eapply dom_update.
    + apply with_contents_locks.
    + apply with_contents_nodes.
Qed.

Lemma run_calls_cons_final (c : call) cs (s : storage) :
  (run_calls (c :: cs) s).2 = (run_calls cs (final (run_call c s))).2.
Proof.
  simpl. destruct (run_call c s) as [e s1|a s1]; simpl;
    by destruct (run_calls cs s1).
Qed.

(** The nodes after any calls, for stores that start consistent. *)
Lemma run_calls_nodes cs (s : storage) :
  consistent s → nodes_of (run_calls cs s).2 = nodes_of s.
Proof.
  revert s. induction cs as [|c cs IH]; intros s Hc; [done|].
  rewrite run_calls_cons_final.
  destruct (run_call_shape s c Hc) as (Hc1 & _ & _ & Hn1).
  by rewrite (IH _ Hc1).
Qed.

(** X1. No sequence of calls creates or deletes an instance, touches the
    lock table or the nodes, or breaks the agreement of lock table, stored
    ids and file names: a consistent store stays consistent, with the same
    ids, locks and nodes. *)
Theorem calls_keep_the_instance_set cs (s : storage) :
  consistent s →
  consistent (run_calls cs s).2 ∧
  dom (contents (run_calls cs s).2) = dom (contents s) ∧
  _locks (run_calls cs s).2 = _locks s ∧
  nodes_of (run_calls cs s).2 = nodes_of s.
Proof.
  revert s. induction cs as [|c cs IH]; intros s Hc; [done|].
  rewrite run_calls_cons_final.
  destruct (run_call_shape s c Hc) as (Hc1 & Hd1 & Hl1 & Hn1).
  destruct (IH _ Hc1) as (Hc' & Hd' & Hl' & Hn').
  split_and!; [done|congruence..].
Qed.

Lemma calls_keep_the_instance_set_witness :
  let cs := [UpdateNodeInstance "web_1" 0 None (Some "started");
             GetNodeInstance "ghost";
             UpdateNodeInstance "ghost" 0 (Some ∅) None] in
  consistent example_file ∧
  consistent (run_calls cs example_file).2 ∧
  dom (contents (run_calls cs example_file).2) = dom (contents example_file) ∧
  _locks (run_calls cs example_file).2 = _locks example_file ∧
  nodes_of (run_calls cs example_file).2 = nodes_of example_file.
Proof.
  intros cs.
  assert (consistent example_file) as Hc.
  { split; [reflexivity|]. split; [vm_compute; reflexivity|].
    unfold keyed_by_id. apply (bool_decide_unpack _). vm_compute. exact I. }
  split; [exact Hc|].
  exact (calls_keep_the_instance_set cs example_file Hc).
Defined.

(** ** Versions and identity *)

Lemma successful_updates_nonneg id cs rs :
  (0 ≤ successful_updates id cs rs)%Z.
Proof.
  revert rs. induction cs as [|c cs IH]; intros rs; [by destruct rs|].
  destruct rs as [|r rs]; [by destruct c|].
  destruct c, r; simpl; try apply IH.
  pose proof (IH rs). case_bool_decide; lia.
Qed.

Lemma updated_identity rp st i :
  ni_id (updated rp st i) = ni_id i ∧
  ni_name (updated rp st i) = ni_name i ∧
  ni_node_id (updated rp st i) = ni_node_id i ∧
  ni_relationships (updated rp st i) = ni_relationships i.
Proof. unfold updated. by destruct rp, st. Qed.

Lemma run_call_identity (s : storage) c id i :
  consistent s → contents s !! id = Some i →
  ∃ i', contents (final (run_call c s)) !! id = Some i' ∧
        ni_id i' = ni_id i ∧ ni_name i' = ni_name i ∧
        ni_node_id i' = ni_node_id i ∧
        ni_relationships i' = ni_relationships i.
Proof.
  intros Hc Hid.
  destruct (run_call_cases s c Hc)
    as [[e He]|[(a & Ha & _)|(id0 & v & rp & st & i0 & -> & Hid0 & Hu)]].
  - rewrite He. by exists i.
  - rewrite Ha. by exists i.
  - rewrite Hu. simpl. rewrite contents_with_contents.
    destruct (decide (id0 = id)) as [->|Hne].
    + rewrite lookup_insert_eq. simplify_eq.
      exists (updated rp st i). split; [done|]. apply updated_identity.
    + rewrite lookup_insert_ne by done. by exists i.
Qed.

Lemma run_calls_identity cs (s : storage) id i :
  consistent s → contents s !! id = Some i →
  ∃ i', contents (run_calls cs s).2 !! id = Some i' ∧
        ni_id i' = ni_id i ∧ ni_name i' = ni_name i ∧
        ni_node_id i' = ni_node_id i ∧
        ni_relationships i' = ni_relationships i.
Proof.
  revert s i. induction cs as [|c cs IH]; intros s i Hc Hid.
  { by exists i. }
  rewrite run_calls_cons_final.
  destruct (run_call_identity s c id i Hc Hid) as (i1 & Hi1 & E1 & E2 & E3 & E4).
  destruct (run_call_shape s c Hc) as (Hc1 & _).
  destruct (IH _ i1 Hc1 Hi1) as (i' & Hi' & F1 & F2 & F3 & F4).
  exists i'. split_and!; [done|congruence..].
Qed.

(** X2. From any consistent store, one reopened on an earlier run's
    directory included, a stored instance is still stored after any
    sequence of calls, under the same id, name, node id and relationships;
    its version is the one before plus the number of successful updates of
    it, so it never decreases. *)
Theorem versions_only_grow cs (s : storage) id i :
  consistent s → contents s !! id = Some i →
  ∃ i',
    contents (run_calls cs s).2 !! id = Some i' ∧
    ni_version i'
    = (ni_version i + successful_updates id cs (run_calls cs s).1)%Z ∧
    (ni_version i ≤ ni_version i')%Z ∧
    ni_id i' = ni_id i ∧ ni_name i' = ni_name i ∧
    ni_node_id i' = ni_node_id i ∧
    ni_relationships i' = ni_relationships i.
Proof.
  intros Hc Hid.
  destruct (run_calls_versions cs s Hc) as [_ Hv].
  destruct (Hv id i Hid) as (i' & Hi' & Hver).
  destruct (run_calls_identity cs s id i Hc Hid) as (i'' & Hi'' & Hrest).
  rewrite Hi' in Hi''. injection Hi'' as <-.
  exists i'. split_and!; try done; try apply Hrest.
  pose proof (successful_updates_nonneg id cs (run_calls cs s).1). lia.
Qed.

Lemma versions_only_grow_witness :
  let cs := [UpdateNodeInstance "db_1" 1 (Some ∅) None;
             UpdateNodeInstance "db_1" 7 (Some ∅) None] in
  ∃ i, consistent example_reopened ∧
       contents example_reopened !! "db_1" = Some i ∧
       ∃ i',
         contents (run_calls cs example_reopened).2 !! "db_1" = Some i' ∧
         ni_version i'
         = (ni_version i +
            successful_updates "db_1" cs (run_calls cs example_reopened).1)%Z ∧
         (ni_version i ≤ ni_version i')%Z ∧
         ni_id i' = ni_id i ∧ ni_name i' = ni_name i ∧
         ni_node_id i' = ni_node_id i ∧
         ni_relationships i' = ni_relationships i.
Proof.
  intros cs.
  assert (consistent example_reopened) as Hc.
  { split; [reflexivity|]. split; [vm_compute; reflexivity|].
    unfold keyed_by_id. apply (bool_decide_unpack _). vm_compute. exact I. }
  eexists. split; [exact Hc|].
  assert (contents example_reopened !! "db_1"
          = Some (updated None (Some "started")
                    (example_instance "db_1" "db"
                       (Some {[ "port" := VInt 5432 ]})))) as Hid
    by (vm_compute; reflexivity).
  split; [exact Hid|].
  exact (versions_only_grow cs example_reopened "db_1" _ Hc Hid).
Defined.

(** ** Property updates *)

(** X3. A property update that carries the stored version is accepted:
    the version grows by one, the runtime properties become exactly the
    ones given (they replace the old ones, they are not merged into them),
    the state and every other instance stay as they were. *)
Theorem current_version_update_replaces_properties (s : storage) id i p :
  consistent s → contents s !! id = Some i →
  ∃ s' i',
    update_node_instance id (ni_version i) (Some p) None s = Return tt s' ∧
    contents s' !! id = Some i' ∧
    ni_version i' = (ni_version i + 1)%Z ∧
    ni_runtime_properties i' = Some p ∧
    ni_state i' = ni_state i ∧
    ∀ id', id' ≠ id → contents s' !! id' = contents s !! id'.
Proof.
  intros Hc Hid.
  exists (with_contents (<[id := updated (Some p) None i]> (contents s)) s),
         (updated (Some p) None i).
  split_and!; try done.
  - apply update_accepted; [done..|]. by right.
  - rewrite contents_with_contents. apply lookup_insert_eq.
  - intros id' Hne. rewrite contents_with_contents. by apply lookup_insert_ne.
Qed.

Lemma current_version_update_replaces_properties_witness :
  let i := example_instance "web_1" "web_server"
             (Some {[ "ip" := VStr "10.0.0.1" ]}) in
  let p : gmap string value := {[ "port" := VInt 80 ]} in
  consistent example_memory ∧
  contents example_memory !! "web_1" = Some i ∧
  ∃ s' i',
    update_node_instance "web_1" (ni_version i) (Some p) None example_memory
    = Return tt s' ∧
    contents s' !! "web_1" = Some i' ∧
    ni_version i' = (ni_version i + 1)%Z ∧
    ni_runtime_properties i' = Some p ∧
    ni_state i' = ni_state i ∧
    ∀ id', id' ≠ "web_1" → contents s' !! id' = contents example_memory !! id'.
Proof.
  intros i p.
  assert (consistent example_memory) as Hc by (vm_compute; reflexivity).
  assert (contents example_memory !! "web_1" = Some i) as Hid
    by (vm_compute; reflexivity).
  split; [exact Hc|]. split; [exact Hid|].
  exact (current_version_update_replaces_properties example_memory "web_1" i p
           Hc Hid).
Defined.

(** X4. Of two property updates sent with the same version the second is
    rejected: once one is accepted, the same call again raises
    [StorageConflictError] with the version it sent and the stored one, one
    higher, and changes nothing. *)
Theorem second_update_with_same_version_conflicts (s s' : storage) id i p q :
  consistent s → contents s !! id = Some i →
  update_node_instance id (ni_version i) (Some p) None s = Return tt s' →
  update_node_instance id (ni_version i) (Some q) None s'
  = Raise (StorageConflictError (ni_version i) id (ni_version i + 1)) s' ∧
  ∃ i', contents s' !! id = Some i' ∧ ni_runtime_properties i' = Some p.
Proof.
  intros Hc Hid Hu.
  rewrite (update_accepted s id i (ni_version i) (Some p) None Hc Hid
             (or_intror eq_refl)) in Hu.
  injection Hu as <-.
  pose proof (consistent_update s id i (Some p) None Hc Hid) as Hc'.
  set (s' := with_contents _ s) in *.
  assert (contents s' !! id = Some (updated (Some p) None i)) as Hid'.
  { unfold s'. rewrite contents_with_contents. apply lookup_insert_eq. }
  split; [|by eexists].
  rewrite (update_stale s' id _ (ni_version i) (Some q) Hc' Hid').
  - by rewrite ni_version_updated.
  - rewrite ni_version_updated. lia.
Qed.

Lemma second_update_with_same_version_conflicts_witness :
  let i := example_instance "web_2" "web_server" None in
  let p : gmap string value := {[ "ip" := VStr "10.0.0.2" ]} in
  let q : gmap string value := {[ "ip" := VStr "10.0.0.3" ]} in
  let s' := final (update_node_instance "web_2" 0 (Some p) None example_file) in
  consistent example_file ∧
  contents example_file !! "web_2" = Some i ∧
  update_node_instance "web_2" (ni_version i) (Some p) None example_file
  = Return tt s' ∧
  update_node_instance "web_2" (ni_version i) (Some q) None s'
  = Raise (StorageConflictError (ni_version i) "web_2" (ni_version i + 1)) s' ∧
  ∃ i', contents s' !! "web_2" = Some i' ∧ ni_runtime_properties i' = Some p.
Proof.
  intros i p q s'.
  assert (consistent example_file) as Hc.
  { split; [reflexivity|]. split; [vm_compute; reflexivity|].
    unfold keyed_by_id. apply (bool_decide_unpack _). vm_compute. exact I. }
  assert (contents example_file !! "web_2" = Some i) as Hid
    by (vm_compute; reflexivity).
  assert (update_node_instance "web_2" (ni_version i) (Some p) None example_file
          = Return tt s') as Hu by (vm_compute; reflexivity).
  split; [exact Hc|]. split; [exact Hid|]. split; [exact Hu|].
  exact (second_update_with_same_version_conflicts example_file s' "web_2" i
           p q Hc Hid Hu).
Defined.

(** X5. A rejected caller recovers by reading the instance and sending
    the update again with the version it read: whatever was sent before,
    [get_node_instance] returns the stored instance and the update with
    its version is accepted. *)
Theorem update_with_reloaded_version_is_accepted (s : storage) id i0 rp st :
  consistent s → contents s !! id = Some i0 →
  ∃ i s',
    get_node_instance id s = Return i s ∧
    update_node_instance id (ni_version i) rp st s = Return tt s' ∧
    ∃ i', contents s' !! id = Some i' ∧
          ni_version i' = (ni_version i + 1)%Z.
Proof.
  intros Hc Hid. exists i0. eexists. split_and!.
  - by apply get_node_instance_stored.
  - apply update_accepted; [done..|]. by right.
  - eexists. split.
    + rewrite contents_with_contents. apply lookup_insert_eq.
    + apply ni_version_updated.
Qed.

Lemma update_with_reloaded_version_is_accepted_witness :
  let i0 := example_instance "db_1" "db" (Some {[ "port" := VInt 5432 ]}) in
  consistent example_memory ∧
  contents example_memory !! "db_1" = Some i0 ∧
  ∃ i s',
    get_node_instance "db_1" example_memory = Return i example_memory ∧
    update_node_instance "db_1" (ni_version i) (Some ∅) None example_memory
    = Return tt s' ∧
    ∃ i', contents s' !! "db_1" = Some i' ∧
          ni_version i' = (ni_version i + 1)%Z.
Proof.
  intros i0.
  assert (consistent example_memory) as Hc by (vm_compute; reflexivity).
  assert (contents example_memory !! "db_1" = Some i0) as Hid
    by (vm_compute; reflexivity).
  split; [exact Hc|]. split; [exact Hid|].
  exact (update_with_reloaded_version_is_accepted example_memory "db_1" i0
           (Some ∅) None Hc Hid).
Defined.

(** ** Reading back *)

(** X6. What an accepted update wrote is what the next reads return, on
    either backend: [get_node_instance] returns the instance with the
    state and the runtime properties given (the old ones where none were
    given) and the version one higher, [get_node_instances] lists it, and
    neither read changes the store. *)
Theorem reads_return_what_was_written (s s' : storage) id i v rp st :
  consistent s → contents s !! id = Some i →
  update_node_instance id v rp st s = Return tt s' →
  ∃ i' l,
    get_node_instance id s' = Return i' s' ∧
    get_node_instances s' = Return l s' ∧ i' ∈ l ∧
    ni_version i' = (ni_version i + 1)%Z ∧
    ni_runtime_properties i'
    = match rp with Some p => Some p | None => ni_runtime_properties i end ∧
    ni_state i' = match st with Some x => Some x | None => ni_state i end.
Proof.
  intros Hc Hid Hu.
  pose proof (read_after_update s s' id i v rp st Hc Hid Hu) as Hg.
  assert (s' = with_contents (<[id := updated rp st i]> (contents s)) s) as Hs'.
  { pose proof (run_call_contract s (UpdateNodeInstance id v rp st) Hc) as H.
    unfold run_call in H. rewrite (bind_return _ _ s tt s') in H by done.
    simpl in H. rewrite Hid in H. destruct (_ && _); [done|].
    unfold ret in H. by injection H. }
  assert (consistent s') as Hc' by (subst s'; by apply consistent_update).
  exists (updated rp st i), (values (contents s')). split_and!.
  - done.
  - by apply get_node_instances_all.
  - apply values_elem_of. exists id. subst s'.
    rewrite contents_with_contents. apply lookup_insert_eq.
  - apply ni_version_updated.
  - unfold updated. by destruct rp, st.
  - unfold updated. by destruct rp, st.
Qed.

Lemma reads_return_what_was_written_witness :
  let i := example_instance "web_2" "web_server" None in
  let p : gmap string value := {[ "ip" := VStr "10.0.0.2" ]} in
  let s' := final (update_node_instance "web_2" 0 (Some p) None example_file) in
  consistent example_file ∧
  contents example_file !! "web_2" = Some i ∧
  update_node_instance "web_2" 0 (Some p) None example_file = Return tt s' ∧
  ∃ i' l,
    get_node_instance "web_2" s' = Return i' s' ∧
    get_node_instances s' = Return l s' ∧ i' ∈ l ∧
    ni_version i' = (ni_version i + 1)%Z ∧
    ni_runtime_properties i' = Some p ∧
    ni_state i' = ni_state i.
Proof.
  intros i p s'.
  assert (consistent example_file) as Hc.
  { split; [reflexivity|]. split; [vm_compute; reflexivity|].
    unfold keyed_by_id. apply (bool_decide_unpack _). vm_compute. exact I. }
  assert (contents example_file !! "web_2" = Some i) as Hid
    by (vm_compute; reflexivity).
  assert (update_node_instance "web_2" 0 (Some p) None example_file
          = Return tt s') as Hu by (vm_compute; reflexivity).
  split; [exact Hc|]. split; [exact Hid|]. split; [exact Hu|].
  exact (reads_return_what_was_written example_file s' "web_2" i 0 (Some p)
           None Hc Hid Hu).
Defined.

(** ** Memory against file *)

Lemma same_answer_same_result (a : answer) :
  same_but_order_and_unknown_read (inr a) (inr a).
Proof. destruct a; simpl; done. Qed.

Lemma run_call_memory_file (m : InMemoryStorage.t) (f : FileStorage.t) c :
  consistent (MemoryStore m) → consistent (FileStore f) →
  contents (MemoryStore m) = contents (FileStore f) →
  match run_call c (MemoryStore m), run_call c (FileStore f) with
  | Return a1 s1, Return a2 s2 =>
      same_but_order_and_unknown_read (inr a1) (inr a2) ∧
      ∃ m' f', s1 = MemoryStore m' ∧ s2 = FileStore f' ∧
               consistent s1 ∧ consistent s2 ∧ contents s1 = contents s2
  | Raise e1 s1, Raise e2 s2 =>
      s1 = MemoryStore m ∧ s2 = FileStore f ∧
      same_but_order_and_unknown_read (inl e1) (inl e2)
  | _, _ => False
  end.
Proof.
  intros Hc1 Hc2 Heq.
  pose proof (consistent_contract _ c Hc1) as Hf1.
  pose proof (consistent_contract _ c Hc2) as Hf2.
  rewrite !run_call_contract by done.
  destruct c as [id| |id v rp st]; unfold contract in *; rewrite <- Heq in *.
  - destruct (contents (MemoryStore m) !! id) as [i|] eqn:Hid.
    + split; [apply same_answer_same_result|]. by exists m, f.
    + split_and!; [done..|]. right. by exists id.
  - split; [apply same_answer_same_result|]. by exists m, f.
  - destruct (contents (MemoryStore m) !! id) as [i|] eqn:Hid.
    + destruct (_ && _).
      * split_and!; [done..|]. by left.
      * split; [apply same_answer_same_result|]. do 2 eexists.
        split_and!; [done|done|done|done|].
        by rewrite !contents_with_contents.
    + split_and!; [done..|]. by left.
Qed.

Lemma run_calls_memory_file cs (m : InMemoryStorage.t) (f : FileStorage.t) :
  consistent (MemoryStore m) → consistent (FileStore f) →
  contents (MemoryStore m) = contents (FileStore f) →
  Forall2 same_but_order_and_unknown_read
    (run_calls cs (MemoryStore m)).1 (run_calls cs (FileStore f)).1 ∧
  contents (run_calls cs (MemoryStore m)).2
  = contents (run_calls cs (FileStore f)).2.
Proof.
  revert m f. induction cs as [|c cs IH]; intros m f Hc1 Hc2 Heq.
  { by split; [constructor|]. }
  pose proof (run_call_memory_file m f c Hc1 Hc2 Heq) as H. simpl.
  destruct (run_call c (MemoryStore m)) as [e1 s1|a1 s1],
           (run_call c (FileStore f)) as [e2 s2|a2 s2]; try done.
  - destruct H as (-> & -> & He).
    destruct (IH m f Hc1 Hc2 Heq) as [Hrs Hcs].
    destruct (run_calls cs (MemoryStore m)), (run_calls cs (FileStore f)).
    simpl in *. split; [|done]. by constructor.
  - destruct H as (Ha & m' & f' & -> & -> & Hc1' & Hc2' & Heq').
    destruct (IH m' f' Hc1' Hc2' Heq') as [Hrs Hcs].
    destruct (run_calls cs (MemoryStore m')), (run_calls cs (FileStore f')).
    simpl in *. split; [|done]. by constructor.
Qed.

(** X7. A memory store and a file store constructed from the same
    instance list, the file store on a directory that carries nothing
    over, answer every sequence of calls alike: a read returns the same
    instance, a listing the same instances (in an order of the backend's
    own, so they are compared as lists up to a permutation), an update
    succeeds or raises the same exception in both; the one difference is
    that a read of an id neither holds raises [RuntimeError] from the one
    and [KeyError] from the other.  They hold the same instances
    afterwards. *)
Theorem backends_agree_but_for_order_and_unknown_reads
    name root nodes insts dir clear d cs :
  starts_empty clear d →
  let m := MemoryStore (InMemoryStorage.__init__ name root nodes insts) in
  let f := FileStore (FileStorage.__init__ name root nodes insts dir clear d) in
  Forall2 same_but_order_and_unknown_read
    (run_calls cs m).1 (run_calls cs f).1 ∧
  contents (run_calls cs m).2 = contents (run_calls cs f).2.
Proof.
  intros Hd m f. apply run_calls_memory_file.
  - apply mem_init_consistent.
  - apply (freshly_constructed_consistent f). by constructor.
  - by apply constructors_agree.
Qed.

Lemma backends_agree_but_for_order_and_unknown_reads_witness :
  let cs := [GetNodeInstance "ghost";
             UpdateNodeInstance "web_1" 3 None None;
             UpdateNodeInstance "web_1" 3 None (Some "started");
             GetNodeInstances] in
  starts_empty false NoInstances ∧
  let m := MemoryStore (InMemoryStorage.__init__ "local" "/blueprint" []
                          example_instances) in
  let f := FileStore (FileStorage.__init__ "local" "/blueprint" []
                        example_instances "/tmp/cloudify-workflows" false
                        NoInstances) in
  Forall2 same_but_order_and_unknown_read
    (run_calls cs m).1 (run_calls cs f).1 ∧
  contents (run_calls cs m).2 = contents (run_calls cs f).2.
Proof.
  intros cs.
  assert (starts_empty false NoInstances) as Hd by (right; reflexivity).
  split; [exact Hd|].
  exact (backends_agree_but_for_order_and_unknown_reads "local" "/blueprint" []
           example_instances "/tmp/cloudify-workflows" false NoInstances cs Hd).
Defined.

(** ** The constructors, again *)

(** X8. A file store constructed with [clear] unset on a directory that
    already has [node-instances] serves the instances in the files, and
    locks their ids, whatever instance list the constructor was given: an
    id is readable exactly when it has a file. *)
Theorem reopened_store_serves_the_files name root nodes insts dir files :
  keyed_by_id files →
  let s := FileStore (FileStorage.__init__ name root nodes insts dir false
                        (Instances files)) in
  consistent s ∧ contents s = files ∧ _locks s = dom files ∧
  (∀ id i, files !! id = Some i → get_node_instance id s = Return i s) ∧
  (∀ id, files !! id = None → get_node_instance id s = Raise (KeyError id) s).
Proof.
  intros Hk s.
  assert (consistent s) as Hc.
  { split; [done|]. split; [apply list_to_set_keys|done]. }
  split_and!; [done|done|apply list_to_set_keys| |].
  - intros id i Hid. by apply get_node_instance_stored.
  - intros id Hid. by rewrite (get_node_instance_unknown s id Hc Hid).
Qed.

Lemma reopened_store_serves_the_files_witness :
  let files : gmap string NodeInstance :=
    {[ "old_1" := set_version 4 (example_instance "old_1" "web_server" None) ]} in
  keyed_by_id files ∧
  let s := FileStore (FileStorage.__init__ "local" "/blueprint" []
                        example_instances "/tmp/cloudify-workflows" false
                        (Instances files)) in
  consistent s ∧ contents s = files ∧ _locks s = dom files ∧
  (∀ id i, files !! id = Some i → get_node_instance id s = Return i s) ∧
  (∀ id, files !! id = None → get_node_instance id s = Raise (KeyError id) s).
Proof.
  intros files.
  assert (keyed_by_id files) as Hk.
  { unfold keyed_by_id. apply (bool_decide_unpack _). vm_compute. exact I. }
  split; [exact Hk|].
  exact (reopened_store_serves_the_files "local" "/blueprint" []
           example_instances "/tmp/cloudify-workflows" files Hk).
Defined.

(** X9. With [clear] set the constructed file store does not depend on
    what the directory held: it is the store constructed on no directory
    at all, holding the given instances at version 0. *)
Theorem clear_discards_the_directory name root nodes insts dir d :
  FileStorage.__init__ name root nodes insts dir true d
  = FileStorage.__init__ name root nodes insts dir true Missing ∧
  contents (FileStore (FileStorage.__init__ name root nodes insts dir true d))
  = contents (MemoryStore (InMemoryStorage.__init__ name root nodes insts)).
Proof.
  split.
  - by destruct d.
  - symmetry. apply constructors_agree. by left.
Qed.

Lemma dict_lookup_last {A} (l1 l2 : list (string * A)) k v :
  k ∉ l2.*1 → dict (l1 ++ (k, v) :: l2) !! k = Some v.
Proof.
  intros Hk. unfold dict.
  rewrite reverse_app, reverse_cons, list_to_map_app.
  apply lookup_union_Some_raw. left.
  rewrite list_to_map_app. apply lookup_union_Some_raw. right. split.
  - apply not_elem_of_list_to_map_1. by rewrite fmap_reverse, elem_of_reverse.
  - simpl. apply lookup_insert_eq.
Qed.

Lemma dict_lookup_none {A} (l : list (string * A)) k :
  k ∉ l.*1 → dict l !! k = None.
Proof.
  intros Hk. unfold dict. apply not_elem_of_list_to_map_1.
  by rewrite fmap_reverse, elem_of_reverse.
Qed.

Lemma keyed_fst {A} (key : A → string) (l : list A) :
  ((λ x, (key x, x)) <$> l).*1 = key <$> l.
Proof. rewrite <- list_fmap_compose. by apply list_fmap_ext. Qed.

Lemma dict_keyed_last {A} (key : A → string) (l : list A) x :
  last_with key l x → dict ((λ x, (key x, x)) <$> l) !! key x = Some x.
Proof.
  intros (l1 & l2 & -> & Hk). rewrite fmap_app, fmap_cons.
  apply dict_lookup_last. by rewrite keyed_fst.
Qed.

Lemma dict_keyed_none {A} (key : A → string) (l : list A) k :
  k ∉ key <$> l → dict ((λ x, (key x, x)) <$> l) !! k = None.
Proof. intros Hk. apply dict_lookup_none. by rewrite keyed_fst. Qed.

(** X10. Constructed from an instance list, the memory store, and the
    file store when [clear] is set or the storage directory has no
    [node-instances] directory yet, hold under each id the last instance
    of the list with that id, its version set to 0 whatever version it
    came with, and nothing under an id no listed instance has.  (A file
    store opened on an existing [node-instances] directory serves the
    files instead.) *)
Theorem constructors_keep_the_last_instance_per_id
    name root nodes insts dir clear d :
  starts_empty clear d →
  let m := MemoryStore (InMemoryStorage.__init__ name root nodes insts) in
  let f := FileStore (FileStorage.__init__ name root nodes insts dir clear d) in
  (∀ i, last_with ni_id insts i →
        contents m !! ni_id i = Some (set_version 0 i) ∧
        contents f !! ni_id i = Some (set_version 0 i)) ∧
  (∀ id, id ∉ ni_id <$> insts →
         contents m !! id = None ∧ contents f !! id = None).
Proof.
  intros Hd m f.
  assert (contents f = contents m) as ->
    by (symmetry; by apply constructors_agree).
  split.
  - intros i Hi.
    assert (contents m !! ni_id i = Some (set_version 0 i)) as H; [|done].
    simpl. unfold mem_contents. simpl. rewrite lookup_fmap.
    by rewrite (dict_keyed_last ni_id insts i Hi).
  - intros id Hid.
    assert (contents m !! id = None) as H; [|done].
    simpl. unfold mem_contents. simpl. rewrite lookup_fmap.
    by rewrite (dict_keyed_none ni_id insts id Hid).
Qed.

Lemma constructors_keep_the_last_instance_per_id_witness :
  let first := set_version 9 (example_instance "web_1" "web_server" None) in
  let second := example_instance "web_1" "db" None in
  let insts := [first; second] in
  starts_empty true Missing ∧
  let m := MemoryStore (InMemoryStorage.__init__ "local" "/blueprint" []
                          insts) in
  let f := FileStore (FileStorage.__init__ "local" "/blueprint" [] insts
                        "/tmp/cloudify-workflows" true Missing) in
  (∀ i, last_with ni_id insts i →
        contents m !! ni_id i = Some (set_version 0 i) ∧
        contents f !! ni_id i = Some (set_version 0 i)) ∧
  (∀ id, id ∉ ni_id <$> insts →
         contents m !! id = None ∧ contents f !! id = None).
Proof.
  intros first second insts.
  assert (starts_empty true Missing) as Hd by (left; reflexivity).
  split; [exact Hd|].
  exact (constructors_keep_the_last_instance_per_id "local" "/blueprint" []
           insts "/tmp/cloudify-workflows" true Missing Hd).
Defined.

(** X11. [get_node] returns the last node of the constructor's list with
    the id asked for and raises [RuntimeError] for an id no node has, on
    either backend and whatever the directory held; it leaves the store as
    it is, and calls on instances do not change what it returns. *)
Theorem get_node_returns_the_last_node_per_id
    name root nodes insts dir clear d cs :
  let m := MemoryStore (InMemoryStorage.__init__ name root nodes insts) in
  let f := FileStore (FileStorage.__init__ name root nodes insts dir clear d) in
  let m' := (run_calls cs m).2 in
  (∀ node, last_with n_id nodes node →
           get_node (n_id node) m = Return node m ∧
           get_node (n_id node) f = Return node f ∧
           get_node (n_id node) m' = Return node m') ∧
  (∀ id, id ∉ n_id <$> nodes →
         get_node id m
         = Raise (RuntimeError ("Node " +:+ id +:+ " does not exist")) m ∧
         get_node id f
         = Raise (RuntimeError ("Node " +:+ id +:+ " does not exist")) f ∧
         get_node id m'
         = Raise (RuntimeError ("Node " +:+ id +:+ " does not exist")) m').
Proof.
  intros m f m'.
  assert (nodes_of m' = nodes_of m) as Hn.
  { apply run_calls_nodes. apply mem_init_consistent. }
  split.
  - intros node Hnode.
    pose proof (dict_keyed_last n_id nodes node Hnode) as Hl.
    unfold get_node, bind, gets. rewrite Hn. simpl. by rewrite Hl.
  - intros id Hid.
    pose proof (dict_keyed_none n_id nodes id Hid) as Hl.
    unfold get_node, bind, gets. rewrite Hn. simpl. by rewrite Hl.
Qed.

(** ** Construction of the environment *)

Section construction.
Context {callable : Type} (import_module : string → result (module callable)).

Lemma resolves_dec path :
  resolves import_module path ∨ ¬ resolves import_module path.
Proof.
  unfold resolves.
  destruct (import_module (module_of path)) as [raised|m] eqn:Hm.
  - right. by intros (m' & [=] & _).
  - destruct (attributes m !! method_of path) as [f|] eqn:Hf.
    + left. exists m. split; [done|]. rewrite Hf. eauto.
    + right. intros (m' & [= <-] & [? ?]). congruence.
Qed.

Lemma prepare_node_inr node node' :
  prepare_node import_module node = inr node' → node' = with_relationships node.
Proof.
  unfold prepare_node, with_relationships.
  destruct (scan _ _ _ _) as [e|[]]; [done|].
  destruct (for_all _ _) as [e|[]]; [done|]. by intros [= <-].
Qed.

Lemma prepare_nodes_inr nodes nodes' :
  prepare_nodes import_module nodes = inr nodes' →
  nodes' = with_relationships <$> nodes.
Proof.
  revert nodes'. induction nodes as [|node nodes IH]; intros nodes'; simpl.
  { by intros [= <-]. }
  destruct (prepare_node import_module node) as [e|node'] eqn:Hn; [done|].
  destruct (prepare_nodes import_module nodes) as [e|ns]; [done|].
  intros [= <-]. apply prepare_node_inr in Hn as ->. by rewrite (IH ns).
Qed.

Lemma prepare_nodes_resolve nodes :
  (∀ node tpe operation,
     node ∈ nodes → descriptor_of node tpe operation →
     resolves import_module (op_operation operation)) →
  prepare_nodes import_module nodes = inr (with_relationships <$> nodes).
Proof.
  intros Hall.
  destruct (prepare_nodes import_module nodes) as [e|nodes'] eqn:Hp.
  - apply prepare_nodes_inl in Hp as (node & Hin & Hn).
    apply prepare_node_inl in Hn as (tpe & op & Hd & Hg).
    apply get_module_method_inl in Hg as [Hnot _].
    destruct Hnot. by eapply Hall.
  - by apply prepare_nodes_inr in Hp as ->.
Qed.

Lemma prepare_nodes_resolved nodes nodes' :
  prepare_nodes import_module nodes = inr nodes' →
  ∀ node tpe operation,
    node ∈ nodes → descriptor_of node tpe operation →
    resolves import_module (op_operation operation).
Proof.
  intros Hp node tpe op Hin Hd.
  destruct (resolves_dec (op_operation op)) as [|Hnot]; [done|].
  destruct (prepare_node_fails import_module node tpe op Hd Hnot) as [e He].
  destruct (prepare_nodes_fails import_module nodes node e Hin He) as [e' He'].
  congruence.
Qed.

Lemma init_inr plan blueprint_dir name storage_cls storage_dir clear d env :
  __init__ import_module true plan blueprint_dir name storage_cls storage_dir clear d
  = inr env →
  let nodes := with_relationships <$> plan_nodes plan in
  let insts := prepare_node_instance <$> plan_node_instances plan in
  prepare_nodes import_module (plan_nodes plan) = inr nodes ∧
  env_name env = name ∧ env_plan env = plan ∧
  ((default InMemoryStorageClass storage_cls = InMemoryStorageClass ∧
    env_storage env
    = MemoryStore (InMemoryStorage.__init__ name blueprint_dir nodes insts)) ∨
   (default InMemoryStorageClass storage_cls = FileStorageClass ∧
    env_storage env
    = FileStore (FileStorage.__init__ name blueprint_dir nodes insts
                   storage_dir clear d))).
Proof.
  unfold __init__, _prepare_nodes_and_instances. simpl.
  destruct (prepare_nodes import_module (plan_nodes plan)) as [e|nodes'] eqn:Hp;
    [done|].
  apply prepare_nodes_inr in Hp as ->.
  destruct (default InMemoryStorageClass storage_cls); try done;
    intros [= <-]; simpl; split_and!; try done; [by left|by right].
Qed.

(** X12. An environment [__init__] returns has the name and the plan it
    was given, and what its store holds is prepared: every instance is
    stored under its id with version 0, its node id equal to its name and
    a relationships list, and every node under its id with a relationships
    list.  On the memory backend, and on the file backend when the
    directory carries nothing over, the store is consistent. *)
Theorem constructed_environment_is_prepared
    plan blueprint_dir name storage_cls storage_dir clear d env :
  __init__ import_module true plan blueprint_dir name storage_cls storage_dir clear d
  = inr env →
  starts_empty clear d →
  env_name env = name ∧ env_plan env = plan ∧
  consistent (env_storage env) ∧
  (∀ id i, contents (env_storage env) !! id = Some i →
           ni_id i = id ∧ ni_version i = 0%Z ∧
           ni_node_id i = ni_name i ∧ is_Some (ni_relationships i)) ∧
  (∀ id node, nodes_of (env_storage env) !! id = Some node →
              n_id node = id ∧ is_Some (n_relationships node)).
Proof.
  intros Hinit Hd.
  destruct (init_inr _ _ _ _ _ _ _ _ Hinit) as (_ & Hname & Hplan & Hs).
  set (nodes := with_relationships <$> plan_nodes plan) in *.
  set (insts := prepare_node_instance <$> plan_node_instances plan) in *.
  pose (m := MemoryStore (InMemoryStorage.__init__ name blueprint_dir nodes
                            insts)).
  assert (contents (env_storage env) = contents m) as Hcontents.
  { destruct Hs as [[_ ->]|[_ ->]]; [done|].
    symmetry. by apply constructors_agree. }
  assert (nodes_of (env_storage env) = nodes_of m) as Hnodes
    by (by destruct Hs as [[_ ->]|[_ ->]]).
  split_and!; [done|done| | |].
  - destruct Hs as [[_ ->]|[_ ->]].
    + apply mem_init_consistent.
    + apply freshly_constructed_consistent. by constructor.
  - rewrite Hcontents. simpl. unfold mem_contents. simpl.
    intros id i. rewrite lookup_fmap.
    destruct (dict _ !! id) as [i0|] eqn:Hi0; [|done].
    intros [= <-]. apply keyed_by_id_dict in Hi0 as Hk.
    unfold dict in Hi0. apply elem_of_list_to_map_2 in Hi0.
    apply elem_of_reverse, list_elem_of_fmap in Hi0 as (i1 & [= _ ->] & Hin).
    apply list_elem_of_fmap in Hin as (i2 & -> & _).
    split_and!; [done|done| |].
    + unfold prepare_node_instance. simpl.
      by destruct (ni_relationships i2).
    + unfold prepare_node_instance. simpl.
      destruct (ni_relationships i2) eqn:E; simpl; rewrite ?E; eauto.
  - rewrite Hnodes. simpl. intros id node Hnode.
    unfold dict in Hnode. apply elem_of_list_to_map_2 in Hnode.
    apply elem_of_reverse, list_elem_of_fmap in Hnode as (n1 & [= -> ->] & Hin).
    apply list_elem_of_fmap in Hin as (n2 & -> & _).
    split; [done|]. unfold with_relationships.
    destruct (n_relationships n2) eqn:E; simpl; rewrite ?E; eauto.
Qed.

(** X13. With a storage class [__init__] accepts, construction succeeds
    exactly when every operation descriptor of every node of the plan
    resolves, its own operations and both sides of its relationships. *)
Theorem construction_succeeds_iff_mappings_resolve
    plan blueprint_dir name storage_cls storage_dir clear d :
  accepted_class storage_cls →
  (∃ env,
     __init__ import_module true plan blueprint_dir name storage_cls storage_dir
       clear d = inr env) ↔
  (∀ node tpe operation,
     node ∈ plan_nodes plan → descriptor_of node tpe operation →
     resolves import_module (op_operation operation)).
Proof.
  intros Hcls. split.
  - intros [env Hinit].
    destruct (init_inr _ _ _ _ _ _ _ _ Hinit) as (Hp & _).
    by eapply prepare_nodes_resolved.
  - intros Hall. apply prepare_nodes_resolve in Hall.
    unfold __init__, _prepare_nodes_and_instances. simpl. rewrite Hall.
    unfold accepted_class in Hcls.
    destruct (default InMemoryStorageClass storage_cls); try done; by eexists.
Qed.

(** X14. [__init__] checks in this order: without the DSL parser it
    raises [ImportError] whatever the plan; with it and with every mapping
    resolving, the abstract [Storage] class or a class that does not
    derive from it is refused with a [ValueError] that names the class,
    and no store is constructed. *)
Theorem construction_refuses_other_storage_classes
    plan blueprint_dir name cls cls_name storage_dir clear d :
  (∀ node tpe operation,
     node ∈ plan_nodes plan → descriptor_of node tpe operation →
     resolves import_module (op_operation operation)) →
  refused_class_name cls = Some cls_name →
  __init__ import_module true plan blueprint_dir name (Some cls) storage_dir clear d
  = inl (ValueError
           ("class " +:+ cls_name +:+ " must strictly derive from Storage. " +:+
            "[see InMemoryStorage and FileStorage]")) ∧
  ∃ msg,
    __init__ import_module false plan blueprint_dir name (Some cls) storage_dir
      clear d = inl (ImportError msg).
Proof.
  intros Hall Hcls. split; [|by eexists].
  apply prepare_nodes_resolve in Hall.
  unfold __init__, _prepare_nodes_and_instances. simpl. rewrite Hall.
  destruct cls; simpl in *; by simplify_eq.
Qed.
End construction.

Lemma example_nodes_resolve node tpe operation :
  node ∈ example_nodes → descriptor_of node tpe operation →
  resolves example_import_module (op_operation operation).
Proof.
  intros Hin Hd.
  assert (op_operation operation = "cloudify.plugins.workflows.install") as ->.
  { apply elem_of_cons in Hin as [->|Hin];
      [|apply elem_of_cons in Hin as [->|Hin];
        [|by apply not_elem_of_nil in Hin]].
    all: destruct Hd as [k op Hk|r k op Hr Hk|r k op Hr Hk];
      try (by apply not_elem_of_nil in Hr).
    all: simpl in Hk; apply lookup_singleton_Some in Hk as [_ <-]; done. }
  eexists. split; [vm_compute; reflexivity|]. vm_compute. eauto.
Qed.

Lemma constructed_environment_is_prepared_witness :
  __init__ example_import_module true example_plan_with_nodes "/blueprint" "local"
    None "/tmp/cloudify-workflows" false Missing = inr example_constructed ∧
  starts_empty false Missing ∧
  env_name example_constructed = "local" ∧
  env_plan example_constructed = example_plan_with_nodes ∧
  consistent (env_storage example_constructed) ∧
  (∀ id i, contents (env_storage example_constructed) !! id = Some i →
           ni_id i = id ∧ ni_version i = 0%Z ∧
           ni_node_id i = ni_name i ∧ is_Some (ni_relationships i)) ∧
  (∀ id node, nodes_of (env_storage example_constructed) !! id = Some node →
              n_id node = id ∧ is_Some (n_relationships node)).
Proof.
  assert (__init__ example_import_module true example_plan_with_nodes "/blueprint"
            "local" None "/tmp/cloudify-workflows" false Missing
          = inr example_constructed) as Hinit by (vm_compute; reflexivity).
  assert (starts_empty false Missing) as Hd by (right; reflexivity).
  split; [exact Hinit|]. split; [exact Hd|].
  exact (constructed_environment_is_prepared example_import_module
           example_plan_with_nodes "/blueprint" "local" None
           "/tmp/cloudify-workflows" false Missing example_constructed
           Hinit Hd).
Defined.

Lemma construction_succeeds_iff_mappings_resolve_witness :
  accepted_class (Some FileStorageClass) ∧
  ((∃ env,
      __init__ example_import_module true example_plan_with_nodes "/blueprint"
        "local" (Some FileStorageClass) "/tmp/cloudify-workflows" true
        Missing = inr env) ↔
   (∀ node tpe operation,
      node ∈ plan_nodes example_plan_with_nodes →
      descriptor_of node tpe operation →
      resolves example_import_module (op_operation operation))).
Proof.
  assert (accepted_class (Some FileStorageClass)) as Hcls by exact I.
  split; [exact Hcls|].
  exact (construction_succeeds_iff_mappings_resolve example_import_module
           example_plan_with_nodes "/blueprint" "local"
           (Some FileStorageClass) "/tmp/cloudify-workflows" true Missing Hcls).
Defined.

Lemma construction_refuses_other_storage_classes_witness :
  (∀ node tpe operation,
     node ∈ plan_nodes example_plan_with_nodes →
     descriptor_of node tpe operation →
     resolves example_import_module (op_operation operation)) ∧
  refused_class_name (OtherClass "dict") = Some "dict" ∧
  __init__ example_import_module true example_plan_with_nodes "/blueprint" "local"
    (Some (OtherClass "dict")) "/tmp/cloudify-workflows" false Missing
  = inl (ValueError
           ("class " +:+ "dict" +:+ " must strictly derive from Storage. " +:+
            "[see InMemoryStorage and FileStorage]")) ∧
  ∃ msg,
    __init__ example_import_module false example_plan_with_nodes "/blueprint"
      "local" (Some (OtherClass "dict")) "/tmp/cloudify-workflows" false
      Missing = inl (ImportError msg).
Proof.
  assert (∀ node tpe operation,
            node ∈ plan_nodes example_plan_with_nodes →
            descriptor_of node tpe operation →
            resolves example_import_module (op_operation operation)) as Hall
    by exact example_nodes_resolve.
  assert (refused_class_name (OtherClass "dict") = Some "dict") as Hcls
    by reflexivity.
  split; [exact Hall|]. split; [exact Hcls|].
  exact (construction_refuses_other_storage_classes example_import_module
           example_plan_with_nodes "/blueprint" "local" (OtherClass "dict")
           "dict" "/tmp/cloudify-workflows" false Missing Hall Hcls).
Defined.

(** ** Execution *)

Section execution.
Context {callable : Type} (import_module : string → result (module callable)).
Context (self : Environment) (parameters : option (gmap string value)).
Context (allow_custom_parameters : bool).
Context (task_retries task_retry_interval task_thread_pool_size : Z).
Context (execution_id : string).

(** X15. [execute] looks at the parameters last: for a workflow whose
    implementation does not resolve it raises what [_get_module_method]
    raises, whatever parameters were given, missing mandatory ones
    included: the [ImportError] of the mapping, with an empty node and the
    kind [workflow], when the import raises [ImportError]; the
    [AttributeError] of the mapping when the module lacks the attribute;
    and any other exception of the import as it is. *)
Theorem unresolved_workflow_fails_before_parameters workflow_name workflow :
  plan_workflows (env_plan self) !! workflow_name = Some workflow →
  ¬ resolves import_module (wf_operation workflow) →
  execute import_module self workflow_name parameters allow_custom_parameters
    task_retries task_retry_interval task_thread_pool_size execution_id
  = inl match import_module (module_of (wf_operation workflow)) with
        | inl (ImportError _) =>
            ImportError
              ("mapping error: No module named " +:+
               module_of (wf_operation workflow) +:+
               " [node=, type=workflow]")
        | inl raised => raised
        | inr module =>
            AttributeError
              ("mapping error: " +:+ __name__ module +:+
               " has no attribute '" +:+
               method_of (wf_operation workflow) +:+
               "' [node=, type=workflow]")
        end.
Proof.
  intros Hwf Hn. unfold execute. rewrite Hwf.
  rewrite get_module_method_unresolved by done. unfold mapping_error.
  destruct (import_module (module_of (wf_operation workflow))) as [raised|m];
    [by destruct raised|done].
Qed.
End execution.

Lemma unresolved_workflow_fails_before_parameters_witness :
  plan_workflows (env_plan example_unmapped_environment) !! "heal"
  = Some example_unmapped_workflow ∧
  ¬ resolves example_import_module (wf_operation example_unmapped_workflow) ∧
  execute example_import_module example_unmapped_environment "heal" None false
    (-1) 30 1 "4f0c"
  = inl match example_import_module
                (module_of (wf_operation example_unmapped_workflow)) with
        | inl (ImportError _) =>
            ImportError
              ("mapping error: No module named " +:+
               module_of (wf_operation example_unmapped_workflow) +:+
               " [node=, type=workflow]")
        | inl raised => raised
        | inr module =>
            AttributeError
              ("mapping error: " +:+ __name__ module +:+
               " has no attribute '" +:+
               method_of (wf_operation example_unmapped_workflow) +:+
               "' [node=, type=workflow]")
        end.
Proof.
  assert (plan_workflows (env_plan example_unmapped_environment) !! "heal"
          = Some example_unmapped_workflow) as Hwf by (vm_compute; reflexivity).
  assert (¬ resolves example_import_module (wf_operation example_unmapped_workflow))
    as Hn.
  { intros (m & Hm & Hf). vm_compute in Hm. injection Hm as <-.
    vm_compute in Hf. by destruct Hf. }
  split; [exact Hwf|]. split; [exact Hn|].
  exact (unresolved_workflow_fails_before_parameters example_import_module
           example_unmapped_environment None false (-1) 30 1 "4f0c" "heal"
           example_unmapped_workflow Hwf Hn).
Defined.

(** The error of that call names the module, the attribute and the kind;
    a workflow the plan does not have is a [ValueError]. *)
Example example_unmapped_workflow_error :
  execute example_import_module example_unmapped_environment "heal" None false
    (-1) 30 1 "4f0c"
  = inl (AttributeError
           ("mapping error: cloudify.plugins.workflows has no attribute " +:+
            "'heal' [node=, type=workflow]")).
Proof. vm_compute. reflexivity. Qed.

Example execute_unknown_workflow :
  ∃ msg,
    execute example_import_module example_environment "heal" None false (-1) 30 1
      "4f0c" = inl (ValueError msg).
Proof. eexists. vm_compute. reflexivity. Qed.

(** ** Merging, again *)

Lemma merge_inr workflow workflow_name parameters allow merged :
  _merge_and_validate_execution_parameters workflow workflow_name parameters
    allow = inr merged →
  (∀ n, ¬ missing_mandatory (default ∅ (wf_parameters workflow))
            (default ∅ parameters) n) ∧
  (allow = true ∨
   ∀ n, ¬ undeclared (default ∅ (wf_parameters workflow))
            (default ∅ parameters) n).
Proof.
  pose proof (merge_loop workflow parameters) as [Hmiss _].
  unfold _merge_and_validate_execution_parameters.
  set (loop := map_fold _ _ _) in *.
  case_bool_decide as Hne; [done|].
  destruct (negb allow && _) eqn:Hcustom; [done|]. intros _.
  split.
  - intros n Hn. apply Hmiss in Hn. rewrite Hne in Hn.
    by apply not_elem_of_empty in Hn.
  - apply andb_false_iff in Hcustom as [Ha|Hc].
    + left. by destruct allow.
    + right. intros n [Hw [v Hv]].
      apply bool_decide_eq_false in Hc. apply Hc. intros Hempty.
      assert (filter (λ kv : string * value,
                        default ∅ (wf_parameters workflow) !! kv.1 = None)
                (default ∅ parameters) !! n = Some v) as Hf
        by by apply custom_parameters_lookup.
      by rewrite Hempty, lookup_empty in Hf.
Qed.

(** X16. [allow_custom_parameters] matters only to a caller that gives an
    undeclared parameter: when every given parameter is declared the two
    settings give the same result, the merged parameters or the same
    error. *)
Theorem flag_is_irrelevant_without_custom_parameters
    workflow workflow_name parameters :
  (∀ n, ¬ undeclared (default ∅ (wf_parameters workflow))
            (default ∅ parameters) n) →
  _merge_and_validate_execution_parameters workflow workflow_name parameters
    true
  = _merge_and_validate_execution_parameters workflow workflow_name parameters
      false.
Proof.
  intros Hno. unfold _merge_and_validate_execution_parameters.
  case_bool_decide; [done|]. simpl.
  rewrite bool_decide_false; [done|].
  intros Hne. apply Hne. apply map_empty. intros n.
  destruct (filter _ _ !! n) as [v|] eqn:Hf; [|done].
  apply custom_parameters_lookup in Hf as [? ?].
  destruct (Hno n). split; eauto.
Qed.

Lemma flag_is_irrelevant_without_custom_parameters_witness :
  let parameters : option (gmap string value) :=
    Some {[ "node_id" := VStr "web_server"; "delta" := VInt 3 ]} in
  (∀ n, ¬ undeclared (default ∅ (wf_parameters example_workflow))
            (default ∅ parameters) n) ∧
  _merge_and_validate_execution_parameters example_workflow "scale" parameters
    true
  = _merge_and_validate_execution_parameters example_workflow "scale"
      parameters false.
Proof.
  intros parameters.
  assert (∀ n, ¬ undeclared (default ∅ (wf_parameters example_workflow))
                   (default ∅ parameters) n) as Hno.
  { intros n [Hw [v Hv]].
    assert (map_Forall (λ k _, is_Some (default ∅ (wf_parameters
                                                     example_workflow) !! k))
              (default ∅ parameters)) as Hall
      by (apply (bool_decide_unpack _); vm_compute; exact I).
    destruct (Hall n v Hv) as [? ?]. congruence. }
  split; [exact Hno|].
  exact (flag_is_irrelevant_without_custom_parameters example_workflow "scale"
           parameters Hno).
Defined.

(** X17. When merging succeeds, no mandatory parameter was missing and
    custom parameters were allowed or absent; the merged parameters have
    exactly the declared and the given names; a given value is never
    replaced by a default, and a declared parameter that was not given has
    its default. *)
Theorem merged_parameters_are_complete
    workflow workflow_name parameters allow merged :
  _merge_and_validate_execution_parameters workflow workflow_name parameters
    allow = inr merged →
  let wp := default ∅ (wf_parameters workflow) in
  let ep := default ∅ parameters in
  (∀ n, ¬ missing_mandatory wp ep n) ∧
  (allow = true ∨ ∀ n, ¬ undeclared wp ep n) ∧
  dom merged = dom wp ∪ dom ep ∧
  (∀ n v, ep !! n = Some v → merged !! n = Some v) ∧
  (∀ n param, wp !! n = Some param → ep !! n = None →
              merged !! n = p_default param ∧ is_Some (p_default param)).
Proof.
  intros Hm wp ep.
  destruct (merge_inr _ _ _ _ _ Hm) as [Hnone Hallow].
  destruct (merge_accepted workflow workflow_name parameters allow Hnone Hallow)
    as (merged' & Hm' & Hval).
  rewrite Hm in Hm'. injection Hm' as <-.
  fold wp ep in Hval, Hnone.
  split_and!; [done|done| | |].
  - apply set_eq. intros n.
    rewrite elem_of_union, !elem_of_dom, Hval. unfold merged_value.
    destruct (wp !! n) as [p|] eqn:Hw; destruct (ep !! n) as [v|] eqn:He;
      split; eauto.
    + intros _. destruct (p_default p) eqn:Hp; [eauto|].
      destruct (Hnone n). by exists p.
    + by intros [[? ?]|[? ?]].
  - intros n v He. rewrite Hval. unfold merged_value. rewrite He.
    by destruct (wp !! n).
  - intros n p Hw He. rewrite Hval. unfold merged_value. rewrite Hw, He.
    split; [done|]. destruct (p_default p) eqn:Hp; [eauto|].
    destruct (Hnone n). by exists p.
Qed.

Lemma merged_parameters_are_complete_witness :
  let parameters : option (gmap string value) :=
    Some {[ "node_id" := VStr "web_server"; "reason" := VStr "load";
            "colour" := VStr "red" ]} in
  let merged : gmap string value :=
    {[ "node_id" := VStr "web_server"; "reason" := VStr "load";
       "colour" := VStr "red"; "delta" := VInt 1 ]} in
  _merge_and_validate_execution_parameters example_workflow "scale" parameters
    true = inr merged ∧
  let wp := default ∅ (wf_parameters example_workflow) in
  let ep := default ∅ parameters in
  (∀ n, ¬ missing_mandatory wp ep n) ∧
  (true = true ∨ ∀ n, ¬ undeclared wp ep n) ∧
  dom merged = dom wp ∪ dom ep ∧
  (∀ n v, ep !! n = Some v → merged !! n = Some v) ∧
  (∀ n param, wp !! n = Some param → ep !! n = None →
              merged !! n = p_default param ∧ is_Some (p_default param)).
Proof.
  intros parameters merged.
  assert (_merge_and_validate_execution_parameters example_workflow "scale"
            parameters true = inr merged) as Hm by (vm_compute; reflexivity).
  split; [exact Hm|].
  exact (merged_parameters_are_complete example_workflow "scale" parameters
           true merged Hm).
Defined.

(** ** Dotted paths *)

Lemma split_nonempty sep s : split sep s ≠ [].
Proof.
  destruct s as [|c s]; simpl; [done|].
  case_decide; [done|]. by destruct (split sep s).
Qed.

Lemma split_app sep a b :
  split sep (a +:+ String sep b) = (split sep a ++ split sep b)%list.
Proof.
  induction a as [|c a IH]; simpl.
  - by rewrite decide_True.
  - case_decide; [by rewrite IH|].
    rewrite IH. pose proof (split_nonempty sep a).
    by destruct (split sep a).
Qed.

Lemma split_no_dot b : no_dot b = true → split "."%char b = [b].
Proof.
  induction b as [|c b IH]; simpl; [done|].
  case_decide; [done|]. intros Hb. by rewrite IH.
Qed.

Lemma join_split s : join "." (split "."%char s) = s.
Proof.
  unfold join. induction s as [|c s IH]; simpl; [done|].
  case_decide as Hc.
  - subst c. pose proof (split_nonempty "."%char s).
    destruct (split "."%char s) as [|h t] eqn:E; [done|].
    simpl in *. by rewrite IH.
  - pose proof (split_nonempty "."%char s).
    destruct (split "."%char s) as [|h t] eqn:E; [done|].
    simpl in *. destruct t; simpl in *; by rewrite <- IH.
Qed.

Lemma path_parts a b :
  no_dot b = true →
  module_of (a +:+ "." +:+ b) = a ∧ method_of (a +:+ "." +:+ b) = b.
Proof.
  intros Hb. unfold module_of, method_of, but_last, last_item.
  change (a +:+ "." +:+ b) with (a +:+ String "."%char b).
  rewrite split_app, (split_no_dot b Hb). split.
  - rewrite removelast_last. apply join_split.
  - apply last_last.
Qed.

(** X18. A path is split at its last dot: for [a.b] with no dot in [b]
    the module imported is [a] and the attribute looked up is [b], so the
    result is that attribute of the module, the [AttributeError] for the
    missing attribute, the [ImportError] of the mapping when the import
    raises [ImportError], or whatever else the import raises; for a path
    [b] without a dot the import is asked for the empty name. *)
Theorem path_is_split_at_its_last_dot {callable}
    (import_module : string → result (module callable)) a b tpe node_name :
  no_dot b = true →
  module_of (a +:+ "." +:+ b) = a ∧ method_of (a +:+ "." +:+ b) = b ∧
  module_of b = EmptyString ∧ method_of b = b ∧
  _get_module_method import_module (a +:+ "." +:+ b) tpe node_name
  = match import_module a with
    | inl (ImportError _) =>
        inl (ImportError
               ("mapping error: No module named " +:+ a +:+ " [node=" +:+
                node_name +:+ ", type=" +:+ tpe +:+ "]"))
    | inl raised => inl raised
    | inr module =>
        match attributes module !! b with
        | Some method => inr method
        | None =>
            inl (AttributeError
                   ("mapping error: " +:+ __name__ module +:+
                    " has no attribute '" +:+ b +:+
                    "' [node=" +:+ node_name +:+ ", type=" +:+ tpe +:+ "]"))
        end
    end ∧
  _get_module_method import_module b tpe node_name
  = match import_module EmptyString with
    | inl (ImportError _) =>
        inl (ImportError
               ("mapping error: No module named " +:+ EmptyString +:+
                " [node=" +:+ node_name +:+ ", type=" +:+ tpe +:+ "]"))
    | inl raised => inl raised
    | inr module =>
        match attributes module !! b with
        | Some method => inr method
        | None =>
            inl (AttributeError
                   ("mapping error: " +:+ __name__ module +:+
                    " has no attribute '" +:+ b +:+
                    "' [node=" +:+ node_name +:+ ", type=" +:+ tpe +:+ "]"))
        end
    end.
Proof.
  intros Hb. destruct (path_parts a b Hb) as [Hmod Hmeth].
  assert (module_of b = EmptyString) as Hmod'
    by (unfold module_of; by rewrite (split_no_dot b Hb)).
  assert (method_of b = b) as Hmeth'
    by (unfold method_of; by rewrite (split_no_dot b Hb)).
  split_and!; [done..| |].
  - unfold _get_module_method.
    fold (module_of (a +:+ "." +:+ b)) (method_of (a +:+ "." +:+ b)).
    by rewrite Hmod, Hmeth.
  - unfold _get_module_method. fold (module_of b) (method_of b).
    by rewrite Hmod', Hmeth'.
Qed.

Lemma path_is_split_at_its_last_dot_witness :
  no_dot "scale" = true ∧
  module_of ("cloudify.plugins.workflows" +:+ "." +:+ "scale")
  = "cloudify.plugins.workflows" ∧
  method_of ("cloudify.plugins.workflows" +:+ "." +:+ "scale") = "scale" ∧
  module_of "scale" = EmptyString ∧ method_of "scale" = "scale" ∧
  _get_module_method example_import_module
    ("cloudify.plugins.workflows" +:+ "." +:+ "scale") "workflow" EmptyString
  = inr "<function scale>" ∧
  _get_module_method example_import_module "scale" "workflow" EmptyString
  = inl (ValueError "Empty module name").
Proof.
  assert (no_dot "scale" = true) as Hb by reflexivity.
  split; [exact Hb|].
  exact (path_is_split_at_its_last_dot example_import_module
           "cloudify.plugins.workflows" "scale" "workflow" EmptyString Hb).
Defined.

(** With the import of the standard library a path without a dot, and one
    whose module part starts with a dot, are refused by the import itself,
    whatever modules there are: the exception is not an [ImportError] and
    [_get_module_method] lets it through. *)
Lemma importlib_refuses_paths_without_module {callable}
    (modules : gmap string (gmap string callable)) a b tpe node_name :
  no_dot b = true →
  _get_module_method (importlib.import_module modules) b tpe node_name
  = inl (ValueError "Empty module name") ∧
  _get_module_method (importlib.import_module modules)
    ("." +:+ a +:+ "." +:+ b) tpe node_name
  = inl (TypeError "relative imports require the 'package' argument").
Proof.
  intros Hb. split.
  - unfold _get_module_method. fold (module_of b).
    assert (module_of b = EmptyString) as ->
      by (unfold module_of; by rewrite (split_no_dot b Hb)).
    done.
  - unfold _get_module_method.
    fold (module_of ("." +:+ a +:+ "." +:+ b)).
    change ("." +:+ a +:+ "." +:+ b) with (("." +:+ a) +:+ "." +:+ b).
    by rewrite (proj1 (path_parts ("." +:+ a) b Hb)).
Qed.

(** ** Outputs and the store *)

Section outputs_and_store.
Context (parse : value → parsed) {S : Type} `{!Store S}.

Lemma scan_entries_literals entries (st : scan_state) (s : S) :
  (∀ k v, (k, v) ∈ entries → parse v = NotGetAttribute) →
  scan_entries parse entries st s = Return st s.
Proof.
  revert st. induction entries as [|[k v] entries IH]; intros st Hall; [done|].
  assert (handler parse k v st s = Return st s) as Hh.
  { unfold handler. by rewrite (Hall k v) by by left. }
  cbn [scan_entries]. unfold bind at 1. rewrite Hh.
  apply IH. intros k' v' Hin. apply (Hall k'). by right.
Qed.

Lemma scan_entries_raises entries (st : scan_state) (s s' : S) e :
  get_node_instances s = Raise e s' → st.1 = None →
  (∃ k v n a, (k, v) ∈ entries ∧ parse v = GetAttribute n a) →
  scan_entries parse entries st s = Raise e s'.
Proof.
  intros Hget Hst. induction entries as [|[k v] entries IH];
    intros (k' & v' & n & a & Hin & Hp); [by apply not_elem_of_nil in Hin|].
  cbn [scan_entries]. unfold bind at 1.
  destruct (parse v) as [n0 a0|] eqn:Hv.
  - assert (handler parse k v st s = Raise e s') as ->; [|done].
    unfold handler. rewrite Hv, Hst. unfold bind. by rewrite Hget.
  - assert (handler parse k v st s = Return st s) as ->.
    { unfold handler. by rewrite Hv. }
    apply IH. apply elem_of_cons in Hin as [[= -> ->]|Hin]; [congruence|].
    by exists k', v', n, a.
Qed.

(** X19. When no output of the plan is a [get_attribute], [outputs] does
    not consult the store at all: it returns the plan's outputs as they
    are, from any store, one whose reads would fail included. *)
Theorem literal_outputs_need_no_store (plan : Plan) (s : S) :
  (∀ k v, plan_outputs plan !! k = Some v → parse v = NotGetAttribute) →
  outputs_of parse plan s = Return (plan_outputs plan) s.
Proof.
  intros Hall. unfold outputs_of, scan_properties.
  rewrite (bind_return _ _ s ((None, plan_outputs plan) : scan_state) s);
    [done|].
  apply scan_entries_literals. intros k v Hin.
  apply (Hall k). by apply elem_of_map_to_list.
Qed.

(** X20. When some output is a [get_attribute] and the store cannot list
    its instances, [outputs] raises what [get_node_instances] raised; no
    partly resolved outputs are returned. *)
Theorem outputs_raise_what_the_store_raises (plan : Plan) (s s' : S) e k v n a :
  get_node_instances s = Raise e s' →
  plan_outputs plan !! k = Some v → parse v = GetAttribute n a →
  outputs_of parse plan s = Raise e s'.
Proof.
  intros Hget Hk Hp. unfold outputs_of, scan_properties.
  apply bind_raise. apply scan_entries_raises; [done|done|].
  exists k, v, n, a. split; [|done]. by apply elem_of_map_to_list.
Qed.
End outputs_and_store.

Lemma literal_outputs_need_no_store_witness :
  (∀ k v, plan_outputs (env_plan example_literal_environment) !! k = Some v →
          example_parse v = NotGetAttribute) ∧
  outputs_of example_parse (env_plan example_literal_environment)
    example_lost_store
  = Return (plan_outputs (env_plan example_literal_environment))
      example_lost_store.
Proof.
  assert (∀ k v,
            plan_outputs (env_plan example_literal_environment) !! k = Some v →
            example_parse v = NotGetAttribute) as Hall.
  { intros k v Hk. simpl in Hk.
    by apply lookup_singleton_Some in Hk as [_ <-]. }
  split; [exact Hall|].
  exact (literal_outputs_need_no_store example_parse
           (env_plan example_literal_environment) example_lost_store Hall).
Defined.

Lemma outputs_raise_what_the_store_raises_witness :
  let v := VDict [("get_attribute", VList [VStr "web_server"; VStr "ip"])] in
  let e := AttributeError "'NoneType' object has no attribute 'keys'" in
  get_node_instances example_lost_store = Raise e example_lost_store ∧
  plan_outputs (env_plan example_lost_environment) !! "endpoint" = Some v ∧
  example_parse v = GetAttribute "web_server" "ip" ∧
  outputs_of example_parse (env_plan example_lost_environment)
    example_lost_store = Raise e example_lost_store.
Proof.
  intros v e.
  assert (get_node_instances example_lost_store = Raise e example_lost_store)
    as Hget by (vm_compute; reflexivity).
  assert (plan_outputs (env_plan example_lost_environment) !! "endpoint"
          = Some v) as Hk by (vm_compute; reflexivity).
  assert (example_parse v = GetAttribute "web_server" "ip") as Hp
    by reflexivity.
  split; [exact Hget|]. split; [exact Hk|]. split; [exact Hp|].
  exact (outputs_raise_what_the_store_raises example_parse
           (env_plan example_lost_environment) example_lost_store
           example_lost_store e "endpoint" v "web_server" "ip" Hget Hk Hp).
Defined.

(** X21. A property written by an accepted update shows in the outputs
    computed afterwards: for an output that is a [get_attribute] of the
    instance's node and of an attribute the update gave a value, the list
    [outputs] returns has that value among its entries. *)
Theorem outputs_show_the_update (parse : value → parsed) (self : Environment)
    (s' : storage) id i version p st k out n a x :
  consistent (env_storage self) →
  contents (env_storage self) !! id = Some i →
  update_node_instance id version (Some p) st (env_storage self)
  = Return tt s' →
  plan_outputs (env_plan self) !! k = Some out →
  parse out = GetAttribute n a →
  ni_node_id i = n → p !! a = Some x →
  ∃ result entries,
    outputs parse {| env_name := env_name self; env_plan := env_plan self;
                     env_storage := s' |} = inr result ∧
    result !! k = Some (VList entries) ∧ x ∈ entries.
Proof.
  intros Hc Hid Hu Hk Hp Hn Hx.
  set (s := env_storage self) in *.
  assert (s' = with_contents (<[id := updated (Some p) st i]> (contents s)) s)
    as Hs'.
  { pose proof (run_call_contract s (UpdateNodeInstance id version (Some p) st)
                  Hc) as H.
    unfold run_call in H. rewrite (bind_return _ _ s tt s') in H by done.
    simpl in H. rewrite Hid in H. destruct (_ && _); [done|].
    unfold ret in H. by injection H. }
  assert (consistent s') as Hc' by (subst s'; by apply consistent_update).
  destruct (outputs_of_returns parse s' (values (contents s'))
              (get_node_instances_all _ Hc') (env_plan self))
    as (result & Ho & Hr).
  exists result, (attribute_values (values (contents s')) n a). split_and!.
  - unfold outputs. simpl. by rewrite Ho.
  - by rewrite Hr, Hk, Hp.
  - unfold attribute_values. apply list_elem_of_fmap.
    exists (updated (Some p) st i). split.
    + rewrite ni_runtime_properties_updated. by rewrite Hx.
    + apply list_elem_of_filter. split.
      * destruct (updated_identity (Some p) st i) as (_ & _ & -> & _). done.
      * apply values_elem_of. exists id. subst s'.
        rewrite contents_with_contents. apply lookup_insert_eq.
Qed.

Lemma outputs_show_the_update_witness :
  let i := example_instance "web_2" "web_server" None in
  let p : gmap string value := {[ "ip" := VStr "10.0.0.2" ]} in
  let out := VDict [("get_attribute", VList [VStr "web_server"; VStr "ip"])] in
  let s' := final (update_node_instance "web_2" 0 (Some p) None
                     (env_storage example_environment)) in
  consistent (env_storage example_environment) ∧
  contents (env_storage example_environment) !! "web_2" = Some i ∧
  update_node_instance "web_2" 0 (Some p) None
    (env_storage example_environment) = Return tt s' ∧
  plan_outputs (env_plan example_environment) !! "endpoint" = Some out ∧
  example_parse out = GetAttribute "web_server" "ip" ∧
  ni_node_id i = "web_server" ∧ p !! "ip" = Some (VStr "10.0.0.2") ∧
  ∃ result entries,
    outputs example_parse
      {| env_name := env_name example_environment;
         env_plan := env_plan example_environment; env_storage := s' |}
    = inr result ∧
    result !! "endpoint" = Some (VList entries) ∧ VStr "10.0.0.2" ∈ entries.
Proof.
  intros i p out s'.
  assert (consistent (env_storage example_environment)) as Hc
    by (vm_compute; reflexivity).
  assert (contents (env_storage example_environment) !! "web_2" = Some i)
    as Hid by (vm_compute; reflexivity).
  assert (update_node_instance "web_2" 0 (Some p) None
            (env_storage example_environment) = Return tt s') as Hu
    by (vm_compute; reflexivity).
  assert (plan_outputs (env_plan example_environment) !! "endpoint" = Some out)
    as Hk by (vm_compute; reflexivity).
  assert (example_parse out = GetAttribute "web_server" "ip") as Hp
    by reflexivity.
  assert (ni_node_id i = "web_server") as Hn by reflexivity.
  assert (p !! "ip" = Some (VStr "10.0.0.2")) as Hx
    by (vm_compute; reflexivity).
  split; [exact Hc|]. split; [exact Hid|]. split; [exact Hu|].
  split; [exact Hk|]. split; [exact Hp|]. split; [exact Hn|].
  split; [exact Hx|].
  exact (outputs_show_the_update example_parse example_environment s' "web_2"
           i 0 p None "endpoint" out "web_server" "ip" (VStr "10.0.0.2")
           Hc Hid Hu Hk Hp Hn Hx).
Defined.

(** ** A file store without its directory *)

(** X22. A constructed file store does not recreate its directory: once
    [node-instances] is gone, reading or updating an instance it has a
    lock for raises [IOError], listing the instances raises the
    [AttributeError] of the dropped [_node_instances], and the store is
    left as it was. *)
Theorem lost_directory_is_not_recreated (f : FileStorage.t) id version rp st :
  isdir_instances (FileStorage.disk f) = false →
  FileStorage._node_instances f = None →
  id ∈ FileStorage.locks f →
  ∃ path,
    get_node_instance id (FileStore f) = Raise (IOError path) (FileStore f) ∧
    update_node_instance id version rp st (FileStore f)
    = Raise (IOError path) (FileStore f) ∧
    get_node_instances (FileStore f)
    = Raise (AttributeError "'NoneType' object has no attribute 'keys'")
        (FileStore f).
Proof.
  intros Hd Hn Hid. exists (FileStorage._instance_path f id).
  assert (_lock id f = Return tt f) as Hlock by by apply lock_held.
  assert (FileStorage.read_file id f
          = Raise (IOError (FileStorage._instance_path f id)) f) as Hread.
  { unfold FileStorage.read_file. by destruct (FileStorage.disk f). }
  split_and!.
  - simpl. unfold FileStorage.get_node_instance, _get_node_instance, bind.
    simpl. unfold bind. by rewrite Hlock, Hread.
  - unfold update_node_instance, bind.
    rewrite (lock_held id (FileStore f)) by done.
    unfold _get_node_instance, bind. simpl. unfold bind.
    by rewrite Hlock, Hread.
  - simpl. unfold FileStorage.get_node_instances, bind. simpl.
    unfold FileStorage.instance_ids. rewrite Hn.
    by destruct (FileStorage.disk f).
Qed.

Lemma lost_directory_is_not_recreated_witness :
  ∃ f, example_lost_store = FileStore f ∧
       isdir_instances (FileStorage.disk f) = false ∧
       FileStorage._node_instances f = None ∧
       "db_1" ∈ FileStorage.locks f ∧
       ∃ path,
         get_node_instance "db_1" (FileStore f)
         = Raise (IOError path) (FileStore f) ∧
         update_node_instance "db_1" 0 None (Some "started") (FileStore f)
         = Raise (IOError path) (FileStore f) ∧
         get_node_instances (FileStore f)
         = Raise (AttributeError "'NoneType' object has no attribute 'keys'")
             (FileStore f).
Proof.
  eexists. split; [vm_compute; reflexivity|].
  match goal with |- isdir_instances (FileStorage.disk ?f) = _ ∧ _ =>
    assert (isdir_instances (FileStorage.disk f) = false) as Hd
      by reflexivity;
    assert (FileStorage._node_instances f = None) as Hn by reflexivity;
    assert ("db_1" ∈ FileStorage.locks f) as Hid
      by (apply (bool_decide_unpack _); vm_compute; exact I);
    split; [exact Hd|]; split; [exact Hn|]; split; [exact Hid|];
    exact (lost_directory_is_not_recreated f "db_1" 0 None (Some "started")
             Hd Hn Hid)
  end.
Defined.

(** ** Resources *)

Section resources_facts.
Context (writable : string → bool) (mktemp : string → string).
Context (resources_root : string).

(** X23. [download_resource] copies the resource: when the resource
    exists and the target can be written, it returns the target path, the
    one given or for no path or the empty path the one [mktemp] made from
    the resource's base name, and afterwards the target holds the
    resource's content, the resource reads as before and no other file has
    changed. *)
Theorem download_copies_the_resource resource_path target_path fs content :
  let target :=
    match target_path with
    | None | Some EmptyString =>
        mktemp ("-" +:+ os_path_basename resource_path)
    | Some target_path => target_path
    end in
  fs !! os_path_join resources_root resource_path = Some content →
  writable target = true →
  ∃ fs',
    download_resource writable mktemp resources_root resource_path
      target_path fs = Return target fs' ∧
    fs' !! target = Some content ∧
    get_resource resources_root resource_path fs' = Return content fs' ∧
    ∀ path, path ≠ target → fs' !! path = fs !! path.
Proof.
  intros target Hres Hw. exists (<[target := content]> fs).
  assert (get_resource resources_root resource_path fs = Return content fs)
    as Hget.
  { unfold get_resource, bind, gets. by rewrite Hres. }
  split_and!.
  - unfold download_resource. fold target.
    rewrite (bind_return _ _ fs content fs) by done.
    by rewrite Hw.
  - apply lookup_insert_eq.
  - unfold get_resource, bind, gets.
    destruct (decide (target = os_path_join resources_root resource_path))
      as [->|Hne].
    + by rewrite lookup_insert_eq.
    + by rewrite lookup_insert_ne, Hres.
  - intros path Hne. by rewrite lookup_insert_ne.
Qed.

(** X24. A download that fails writes nothing: it raises [IOError] for
    the resource when the resource is missing, before the target is
    opened, or for the target when the target cannot be written, and in
    both cases every file is as it was. *)
Theorem failed_download_writes_nothing resource_path target_path fs e fs' :
  let target :=
    match target_path with
    | None | Some EmptyString =>
        mktemp ("-" +:+ os_path_basename resource_path)
    | Some target_path => target_path
    end in
  download_resource writable mktemp resources_root resource_path target_path
    fs = Raise e fs' →
  fs' = fs ∧
  ((fs !! os_path_join resources_root resource_path = None ∧
    e = IOError (os_path_join resources_root resource_path)) ∨
   (is_Some (fs !! os_path_join resources_root resource_path) ∧
    writable target = false ∧ e = IOError target)).
Proof.
  intros target. unfold download_resource. fold target.
  unfold get_resource, bind, gets, ret, raise, modify.
  destruct (fs !! os_path_join resources_root resource_path) as [content|].
  - destruct (writable target); [done|].
    intros [= <- <-]. split; [done|]. right. eauto.
  - intros [= <- <-]. split; [done|]. by left.
Qed.
End resources_facts.

Lemma download_copies_the_resource_witness :
  let target := example_mktemp ("-" +:+ os_path_basename "scripts/start.sh") in
  example_files !! os_path_join "/blueprint" "scripts/start.sh"
  = Some "#!/bin/sh" ∧
  example_writable target = true ∧
  ∃ fs',
    download_resource example_writable example_mktemp "/blueprint"
      "scripts/start.sh" (Some "") example_files = Return target fs' ∧
    fs' !! target = Some "#!/bin/sh" ∧
    get_resource "/blueprint" "scripts/start.sh" fs'
    = Return "#!/bin/sh" fs' ∧
    ∀ path, path ≠ target → fs' !! path = example_files !! path.
Proof.
  intros target.
  assert (example_files !! os_path_join "/blueprint" "scripts/start.sh"
          = Some "#!/bin/sh") as Hres by (vm_compute; reflexivity).
  assert (example_writable target = true) as Hw by (vm_compute; reflexivity).
  split; [exact Hres|]. split; [exact Hw|].
  exact (download_copies_the_resource example_writable example_mktemp
           "/blueprint" "scripts/start.sh" (Some "") example_files
           "#!/bin/sh" Hres Hw).
Defined.

Lemma failed_download_writes_nothing_witness :
  let e := IOError "/blueprint/scripts/stop.sh" in
  download_resource example_writable example_mktemp "/blueprint"
    "scripts/stop.sh" (Some "/tmp/stop.sh") example_files
  = Raise e example_files ∧
  example_files = example_files ∧
  ((example_files !! os_path_join "/blueprint" "scripts/stop.sh" = None ∧
    e = IOError (os_path_join "/blueprint" "scripts/stop.sh")) ∨
   (is_Some (example_files !! os_path_join "/blueprint" "scripts/stop.sh") ∧
    example_writable "/tmp/stop.sh" = false ∧ e = IOError "/tmp/stop.sh")).
Proof.
  intros e.
  assert (download_resource example_writable example_mktemp "/blueprint"
            "scripts/stop.sh" (Some "/tmp/stop.sh") example_files
          = Raise e example_files) as Hd by (vm_compute; reflexivity).
  split; [exact Hd|].
  exact (failed_download_writes_nothing example_writable example_mktemp
           "/blueprint" "scripts/stop.sh" (Some "/tmp/stop.sh") example_files
           e example_files Hd).
Defined.

(** The temporary name of the example carries the base name of the
    resource, and an absolute resource path is read as it is. *)
Example example_download_target :
  download_resource example_writable example_mktemp "/blueprint"
    "scripts/start.sh" None example_files
  = Return "/tmp/tmpq3x9-start.sh"
      (<["/tmp/tmpq3x9-start.sh" := "#!/bin/sh"]> example_files) ∧
  get_resource "/elsewhere" "/blueprint/scripts/start.sh" example_files
  = Return "#!/bin/sh" example_files.
Proof. vm_compute. done. Qed.

(** ** Listing the nodes *)

Lemma dict_keyed_lookup {A} (key : A → string) (l : list A) k x :
  dict ((λ x, (key x, x)) <$> l) !! k = Some x →
  last_with key l x ∧ key x = k.
Proof.
  revert k x. induction l as [|y l IH] using rev_ind; intros k x.
  { unfold dict. simpl. by rewrite lookup_empty. }
  unfold dict. rewrite fmap_app, reverse_app. simpl.
  destruct (decide (key y = k)) as [<-|Hne].
  - rewrite lookup_insert_eq. intros [= <-]. split; [|done].
    exists l, []. split; [done|]. simpl. apply not_elem_of_nil.
  - rewrite lookup_insert_ne by done. intros Hl.
    destruct (IH k x Hl) as [(l1 & l2 & -> & Hk) <-]. split; [|done].
    exists l1, (l2 ++ [y])%list. split; [by rewrite <- app_assoc|].
    rewrite fmap_app. simpl. rewrite elem_of_app, list_elem_of_singleton.
    intros [?|?]; [done|congruence].
Qed.

(** X25. [get_nodes] lists the nodes [get_node] can return, one for each
    id: a node is listed exactly when it is the last of the constructor's
    list with its id, no id is listed twice, and the store is left as it
    is. *)
Theorem get_nodes_lists_one_node_per_id name root nodes insts :
  let m := MemoryStore (InMemoryStorage.__init__ name root nodes insts) in
  ∃ l, get_nodes m = Return l m ∧
       NoDup (n_id <$> l) ∧
       (∀ node, node ∈ l ↔ last_with n_id nodes node) ∧
       (∀ node, node ∈ l → get_node (n_id node) m = Return node m).
Proof.
  intros m.
  set (d := dict ((λ node, (n_id node, node)) <$> nodes)).
  assert (∀ k node, d !! k = Some node → n_id node = k) as Hkey.
  { intros k node Hk. by apply dict_keyed_lookup in Hk as [_ ?]. }
  exists (values d). split_and!.
  - done.
  - unfold values.
    assert ((n_id <$> (map_to_list d).*2) = (map_to_list d).*1) as ->.
    { rewrite <- list_fmap_compose. apply list_fmap_ext.
      intros j [k node] Hin. simpl.
      apply list_elem_of_lookup_2, elem_of_map_to_list in Hin. by apply Hkey. }
    apply NoDup_fst_map_to_list.
  - intros node. rewrite values_elem_of. split.
    + intros [k Hk]. by apply dict_keyed_lookup in Hk as [? _].
    + intros Hlast. exists (n_id node). by apply dict_keyed_last.
  - intros node Hin. apply values_elem_of in Hin as [k Hk].
    unfold get_node, bind, gets. simpl. fold d.
    by rewrite (Hkey k node Hk), Hk.
Qed.

(** Two nodes with one id: the later one is the node of that id. *)
Example example_duplicate_node :
  let first := example_node "web_server" in
  let second := {| n_id := "web_server"; n_operations := None;
                   n_relationships := Some [] |} in
  let m := MemoryStore (InMemoryStorage.__init__ "local" "/blueprint"
                          [first; second] []) in
  get_node "web_server" m = Return second m ∧
  get_nodes m = Return [second] m.
Proof. vm_compute. done. Qed.
